(** * QCNN tutorial (tutorial_learning_few_data.py): circuit construction,
      evaluation functions and training loop.

    The script builds a quantum circuit by calling framework constructors
    (qml.U3, qml.IsingXX, qml.measure, ...) that append operations to the
    active tape, and it can abort with a Python exception.  Both effects are
    modelled by the [Tape] monad below: a computation yields a result (a value
    or the raised exception) together with the operations queued so far.

    The weights and the features, which the circuit builders only move
    around, are modelled by exact rationals [Q].  The numbers the device
    returns and everything the evaluation functions compute from them are
    float32 numbers (jax's default precision): each is modelled by the
    rational it denotes, and every operation is rounded to the nearest
    float32, ties to even. *)

From Stdlib Require Import String Ascii DecimalString.
From Stdlib Require Import Bool Arith ZArith QArith Qround Qpower Lqa Lia List Permutation.
Import ListNotations.

Local Open Scope nat_scope.

(** ** Part I.  The program *)

Inductive exn : Type :=
| AssertionError (msg : string)
| IndexError
| TypeError
| ValueError.

Inductive result (A : Type) : Type :=
| Ok (a : A)
| Raise (e : exn).
Arguments Ok {A} a.
Arguments Raise {A} e.

Definition wire := nat.

(** The value returned by [qml.measure]: a handle on the outcome of the
    mid-circuit measurement of one wire. *)
Inductive MeasurementValue : Type :=
| Outcome (w : wire).

Inductive Operation : Type :=
| AmplitudeEmbedding (features : list Q) (wires : list wire) (pad_with : Q)
| U3 (theta phi delta : Q) (w : wire)
| IsingXX (phi : Q) (w1 w2 : wire)
| IsingYY (phi : Q) (w1 w2 : wire)
| IsingZZ (phi : Q) (w1 w2 : wire)
| MidMeasure (w : wire)
| Conditional (m : MeasurementValue) (then_op : Operation)
| ArbitraryUnitary (weights : list Q) (wires : list wire).

(** What a QNode returns: the measurement to perform at the end. *)
Inductive MeasurementProcess : Type :=
| Probs (wires : list wire).

Definition Tape (A : Type) : Type := (result A * list Operation)%type.

Definition ret {A} (a : A) : Tape A := (Ok a, []).

Definition bind {A B} (m : Tape A) (f : A -> Tape B) : Tape B :=
  match m with
  | (Ok a, ops) => let (r, ops') := f a in (r, ops ++ ops')
  | (Raise e, ops) => (Raise e, ops)
  end.

Notation "x <- c1 ;; c2" := (bind c1 (fun x => c2))
  (at level 61, c1 at next level, right associativity).
Notation "c1 ;; c2" := (bind c1 (fun _ => c2))
  (at level 61, right associativity).

Definition raise {A} (e : exn) : Tape A := (Raise e, []).
Definition emit (op : Operation) : Tape unit := (Ok tt, [op]).

(** [assert cond, msg] *)
Definition assert (cond : bool) (msg : string) : Tape unit :=
  if cond then ret tt else raise (AssertionError msg).

(** [l[i]] for a non-negative index: out of range raises IndexError. *)
Definition getitem {A} (l : list A) (i : nat) : Tape A :=
  match nth_error l i with
  | Some x => ret x
  | None => raise IndexError
  end.

(** [l[a:b]] and [l[a:]] for non-negative bounds. *)
Definition slice {A} (a b : nat) (l : list A) : list A := firstn (b - a) (skipn a l).
Definition slice_from {A} (a : nat) (l : list A) : list A := skipn a l.

(** [l[::2]] *)
Fixpoint stride2 {A} (l : list A) : list A :=
  match l with
  | x :: _ :: r => x :: stride2 r
  | _ => l
  end.

(** [enumerate(l)] *)
Definition enumerate {A} (l : list A) : list (nat * A) :=
  combine (seq 0 (length l)) l.

(** [for x in l: body(x)] *)
Fixpoint for_each {A} (l : list A) (body : A -> Tape unit) : Tape unit :=
  match l with
  | [] => ret tt
  | x :: r => body x ;; for_each r body
  end.

(** [qml.U3] called on the unpacked list [args] and the wire [w]: the gate
    takes exactly three angles. *)
Definition call_U3 (args : list Q) (w : wire) : Tape unit :=
  match args with
  | [theta; phi; delta] => emit (U3 theta phi delta w)
  | _ => raise TypeError
  end.

(** [qml.measure(w)] queues the measurement and returns its outcome handle. *)
Definition measure (w : wire) : Tape MeasurementValue :=
  (Ok (Outcome w), [MidMeasure w]).

(** [qml.cond(m, op)(...)]: every operation the call queues is queued under
    the classical control [m]. *)
Definition cond (m : MeasurementValue) (call : Tape unit) : Tape unit :=
  (fst call, map (Conditional m) (snd call)).

Definition too_small : string := "this circuit is too small!"%string.

(** [convolutional_layer], lines 153-167.  The two sweeps [for p in [0, 1]]
    run over [enumerate(wires)]; every index and slice is taken where the
    source takes it. *)
Definition convolutional_layer (weights : list Q) (wires : list wire)
    (skip_first_layer : bool) : Tape unit :=
  let n_wires := length wires in
  assert (3 <=? n_wires) too_small ;;
  for_each [0; 1] (fun p =>
    for_each (enumerate wires) (fun '(indx, w) =>
      if (indx mod 2 =? p) && (indx <? n_wires - 1) then
        (if (indx mod 2 =? 0) && skip_first_layer then
           call_U3 (slice 0 3 weights) w ;;
           w' <- getitem wires (indx + 1) ;;
           call_U3 (slice 3 6 weights) w'
         else ret tt) ;;
        xx <- getitem weights 6 ;;
        w' <- getitem wires (indx + 1) ;;
        emit (IsingXX xx w w') ;;
        yy <- getitem weights 7 ;;
        w' <- getitem wires (indx + 1) ;;
        emit (IsingYY yy w w') ;;
        zz <- getitem weights 8 ;;
        w' <- getitem wires (indx + 1) ;;
        emit (IsingZZ zz w w') ;;
        call_U3 (slice 9 12 weights) w ;;
        w' <- getitem wires (indx + 1) ;;
        call_U3 (slice_from 12 weights) w'
      else ret tt)).

(** [pooling_layer], lines 174-181. *)
Definition pooling_layer (weights : list Q) (wires : list wire) : Tape unit :=
  let n_wires := length wires in
  assert (2 <=? length wires) too_small ;;
  for_each (enumerate wires) (fun '(indx, w) =>
    if (indx mod 2 =? 1) && (indx <? n_wires) then
      m_outcome <- measure w ;;
      w' <- getitem wires (indx - 1) ;;
      cond m_outcome (call_U3 weights w')
    else ret tt).

(** [conv_and_pooling], lines 190-192; [convolutional_layer] is called with
    the default [skip_first_layer=True]. *)
Definition conv_and_pooling (kernel_weights : list Q) (n_wires : list wire) : Tape unit :=
  convolutional_layer (slice 0 15 kernel_weights) n_wires true ;;
  pooling_layer (slice_from 15 kernel_weights) n_wires.

(** [qml.ArbitraryUnitary(weights, wires)]: the template takes one angle per
    non-identity Pauli word on its wires, 4^n - 1 of them on n wires, and
    raises ValueError, queuing nothing, on a vector of any other size. *)
Definition call_ArbitraryUnitary (weights : list Q) (wires : list wire) : Tape unit :=
  if length weights =? 4 ^ length wires - 1
  then emit (ArbitraryUnitary weights wires)
  else raise ValueError.

(** [dense_layer], lines 195-196. *)
Definition dense_layer (weights : list Q) (wires : list wire) : Tape unit :=
  call_ArbitraryUnitary weights wires.

Definition num_wires : nat := 6.

(** The weight tensor is a two-dimensional array of which the code reads only
    [shape[1]] and whole columns [weights[:, j]]; it is stored here as the
    list of its columns. *)
Definition tensor := list (list Q).
Definition shape1 (weights : tensor) : nat := length weights.
Definition column (weights : tensor) (j : nat) : Tape (list Q) := getitem weights j.

Definition string_of_nat (n : nat) : string := NilEmpty.string_of_uint (Nat.to_uint n).

Definition newline : string := String (ascii_of_nat 10) EmptyString.

(** The f-string of the assertion in [conv_net]. *)
Definition last_layer_msg (expected given : nat) : string :=
  ("The size of the last layer weights vector is incorrect! " ++ newline
   ++ " Expected " ++ string_of_nat expected ++ ", Given " ++ string_of_nat given)%string.

(** The loop [for j in range(layers)] of [conv_net]; the variable [wires]
    is rebound at the end of every iteration and is read after the loop. *)
Fixpoint conv_net_rounds (weights : tensor) (js : list nat) (wires : list wire)
    : Tape (list wire) :=
  match js with
  | [] => ret wires
  | j :: js' =>
      kernel <- column weights j ;;
      conv_and_pooling kernel wires ;;
      conv_net_rounds weights js' (stride2 wires)
  end.

(** [conv_net], lines 201-220; [0.5] is the rational 1/2.
    [qml.AmplitudeEmbedding] takes at most 2^6 features on the 6 wires; this
    check of the template is not part of the model, which is of the calls
    whose feature vector fits the register. *)
Definition conv_net (weights : tensor) (last_layer_weights : list Q)
    (features : list Q) : Tape MeasurementProcess :=
  let layers := shape1 weights in
  let wires := seq 0 num_wires in
  emit (AmplitudeEmbedding features wires (1 # 2)) ;;
  wires <- conv_net_rounds weights (seq 0 layers) wires ;;
  assert (length last_layer_weights =? 4 ^ length wires - 1)
         (last_layer_msg (4 ^ length wires - 1) (length last_layer_weights)) ;;
  dense_layer last_layer_weights wires ;;
  ret (Probs [0]).

Definition result_bind {A B} (r : result A) (f : A -> result B) : result B :=
  match r with
  | Ok a => f a
  | Raise e => Raise e
  end.

Notation "'let?' x ':=' c 'in' k" := (result_bind c (fun x => k))
  (at level 10, x pattern, c at level 100, k at level 200).

(** *** float32 numbers

    A float32 is a finite number m * 2^e with |m| < 2^24 and
    -149 <= e <= 104, an infinity or NaN.  The sign of a zero is not
    represented: it shows only in a division by zero, and the code divides
    by lengths. *)
Inductive float32 : Type :=
| Finite (q : Q)
| Infinity (negative : bool)
| NaN.

Definition pow2 (e : Z) : Q := (2 ^ e)%Q.

(** The binary magnitude of a positive number:
    2^(mag x - 1) <= x < 2^(mag x). *)
Definition mag (x : Q) : Z :=
  let l := (Z.log2 (Qnum x) - Z.log2 (Z.pos (Qden x)))%Z in
  if Qle_bool (pow2 l) x then (l + 1)%Z else l.

(** The nearest integer, ties to even. *)
Definition rne (m : Q) : Z :=
  let f := Qfloor m in
  match Qcompare (m - inject_Z f) (1 # 2) with
  | Lt => f
  | Gt => (f + 1)%Z
  | Eq => if Z.even f then f else (f + 1)%Z
  end.

(** The exponent of the last binary digit a float32 keeps of [x]: 24 digits,
    and no exponent below -149 (subnormal numbers). *)
Definition cexp (x : Q) : Z := Z.max (mag x - 24) (-149).

(** A positive number rounded to 24 binary digits. *)
Definition rndQ (x : Q) : Q :=
  (inject_Z (rne (x / pow2 (cexp x))) * pow2 (cexp x))%Q.

(** The float32 nearest to the positive number [x], with the given sign;
    what rounds to 2^128 or more overflows to infinity. *)
Definition round_pos (x : Q) (negative : bool) : float32 :=
  let r := rndQ x in
  if Qle_bool (pow2 128) r then Infinity negative
  else Finite (Qred (if negative then - r else r)).

(** Rounding of a real number to float32. *)
Definition round32 (x : Q) : float32 :=
  let x := Qred x in
  match Qcompare x 0 with
  | Eq => Finite 0
  | Gt => round_pos x false
  | Lt => round_pos (- x) true
  end.

(** [Finite q] is a float32 when rounding leaves [q] as it is. *)
Definition is_float32 (x : float32) : Prop :=
  match x with
  | Finite q => round32 q = Finite q
  | _ => True
  end.

(** The literals [0.0], [0.5] and [1.0]. *)
Definition zero32 : float32 := Finite 0.
Definition half32 : float32 := Finite (1 # 2).
Definition one32 : float32 := Finite 1.

(** [x < y] on rationals, as a boolean. *)
Definition Qltb (x y : Q) : bool := negb (Qle_bool y x).

Definition add32 (x y : float32) : float32 :=
  match x, y with
  | Finite a, Finite b => round32 (a + b)
  | Infinity s, Infinity s' => if Bool.eqb s s' then Infinity s else NaN
  | Infinity s, Finite _ | Finite _, Infinity s => Infinity s
  | _, _ => NaN
  end.

Definition neg32 (x : float32) : float32 :=
  match x with
  | Finite a => Finite (- a)
  | Infinity s => Infinity (negb s)
  | NaN => NaN
  end.

Definition sub32 (x y : float32) : float32 := add32 x (neg32 y).

Definition div32 (x y : float32) : float32 :=
  match x, y with
  | Finite a, Finite b =>
      if Qeq_bool b 0 then (if Qeq_bool a 0 then NaN else Infinity (Qltb a 0))
      else round32 (a / b)
  | Finite _, Infinity _ => Finite 0
  | Infinity s, Finite b => Infinity (xorb s (Qltb b 0))
  | _, _ => NaN
  end.

(** [x < y] on float32 numbers: false as soon as one of them is NaN. *)
Definition ltb32 (x y : float32) : bool :=
  match x, y with
  | Finite a, Finite b => Qltb a b
  | Finite _, Infinity s => negb s
  | Infinity s, Finite _ => s
  | Infinity s, Infinity s' => s && negb s'
  | _, _ => false
  end.

(** A 32-bit signed integer: arithmetic wraps around at 2^31. *)
Definition int32 (z : Z) : Z := ((z + 2 ^ 31) mod 2 ^ 32 - 2 ^ 31)%Z.

(** Conversion of an integer to float32. *)
Definition of_Z32 (z : Z) : float32 := round32 (inject_Z z).

(** [len(x)], a Python integer, as an operand of a float32 division. *)
Definition of_nat32 (n : nat) : float32 := of_Z32 (Z.of_nat n).

(** The device that executes a tape and returns the outcome probabilities of
    the requested measurement, an array of float32 numbers (an external
    collaborator). *)
Class Simulator : Type :=
  execute : list Operation -> MeasurementProcess -> list float32.

(** Calling the QNode [conv_net]: the tape is built, then executed. *)
Definition conv_net_qnode `{Simulator} (weights : tensor) (last_layer_weights : list Q)
    (features : list Q) : result (list float32) :=
  match conv_net weights last_layer_weights features with
  | (Ok m, tape) => Ok (execute tape m)
  | (Raise e, _) => Raise e
  end.

(** [jax.vmap] over the leading axis, as a map over the samples in order. *)
Fixpoint vmap {A B} (f : A -> result B) (l : list A) : result (list B) :=
  match l with
  | [] => Ok []
  | x :: r => let? y := f x in let? ys := vmap f r in Ok (y :: ys)
  end.

(** [compute_out], lines 257-260.  [vmap] rejects batches whose leading
    axes differ in size.  Labels are the class indices 0 and 1 and the
    probability vector of one wire has two entries, so the index [label] is
    in range. *)
Definition compute_out `{Simulator} (weights : tensor) (weights_last : list Q)
    (features : list (list Q)) (labels : list nat) : result (list float32) :=
  let cost := fun weights weights_last feature label =>
    let? probs := conv_net_qnode weights weights_last feature in
    Ok (nth label probs zero32) in
  if length features =? length labels then
    vmap (fun '(feature, label) => cost weights weights_last feature label)
         (combine features labels)
  else Raise ValueError.

(** The number of true entries of a boolean array. *)
Definition sum_bool (l : list bool) : nat := fold_right (fun b n => Nat.b2n b + n) 0 l.

(** [jnp.sum] of a boolean array: the count of its true entries, a 32-bit
    integer. *)
Definition count32 (l : list bool) : Z := int32 (Z.of_nat (sum_bool l)).

(** [jnp.sum] of a float32 array: the entries are added up from 0.0 in the
    order of the array, every addition rounded. *)
Definition sum32 (l : list float32) : float32 := fold_left add32 l zero32.

(** [compute_accuracy], lines 262-266: the integer count and the length are
    converted to float32 and divided. *)
Definition compute_accuracy `{Simulator} (weights : tensor) (weights_last : list Q)
    (features : list (list Q)) (labels : list nat) : result float32 :=
  let? out := compute_out weights weights_last features labels in
  Ok (div32 (of_Z32 (count32 (map (fun p => ltb32 half32 p) out)))
            (of_nat32 (length out))).

(** [compute_cost], lines 268-272. *)
Definition compute_cost `{Simulator} (weights : tensor) (weights_last : list Q)
    (features : list (list Q)) (labels : list nat) : result float32 :=
  let? out := compute_out weights weights_last features labels in
  Ok (sub32 one32 (div32 (sum32 out) (of_nat32 (length labels)))).

Definition params : Type := (tensor * list Q)%type.

(** The source of the normal draws of [init_weights], numbered in the order
    they fill the arrays. *)
Class Sampler : Type :=
  normal : nat -> Q.

(** [init_weights]: an (18, 2) tensor and a vector of 4^2 - 1 entries. *)
Definition init_weights `{Sampler} : params :=
  let weights := map (fun j => map (fun i => normal (2 * i + j)) (seq 0 18)) (seq 0 2) in
  let weights_last := map (fun k => normal (36 + k)) (seq 0 (4 ^ 2 - 1)) in
  (weights, weights_last).

(** The dataset loader: (x_train, y_train, x_test, y_test). *)
Class Dataset : Type :=
  load_digits_data :
    nat -> nat -> (list (list Q) * list nat * list (list Q) * list nat).

(** The external optimizer: its state, its constructor from a step size, and
    [step_and_cost], which takes the objective and the current arguments and
    returns the new arguments and a cost. *)
Class Optimizer : Type := {
  opt_state : Type;
  AdamOptimizer : Q -> opt_state;
  step_and_cost :
    opt_state -> (params -> result float32) -> params
    -> result (opt_state * params * float32)
}.

(** The dictionary returned by [train_qcnn]. *)
Module Results.
Record t : Type := {
  n_train : list nat;
  step : list nat;
  train_cost : list float32;
  train_acc : list float32;
  test_cost : list float32;
  test_acc : list float32
}.
End Results.

(** The variables of the loop of [train_qcnn]. *)
Record loop_state `{Optimizer} : Type := {
  optimizer : opt_state;
  weights_var : params;
  train_cost_epochs : list float32;
  test_cost_epochs : list float32;
  train_acc_epochs : list float32;
  test_acc_epochs : list float32
}.

(** One iteration of [for step in pbar]. *)
Definition train_step `{Simulator} `{Optimizer}
    (x_train : list (list Q)) (y_train : list nat)
    (x_test : list (list Q)) (y_test : list nat)
    (s : loop_state) : result loop_state :=
  let objective := fun p : params => compute_cost (fst p) (snd p) x_train y_train in
  let? (optimizer', (weights, weights_last), train_cost) :=
    step_and_cost (optimizer s) objective (weights_var s) in
  let train_cost_epochs := train_cost_epochs s ++ [train_cost] in
  let? train_acc := compute_accuracy weights weights_last x_train y_train in
  let train_acc_epochs := train_acc_epochs s ++ [train_acc] in
  let? test_cost := compute_cost weights weights_last x_test y_test in
  let test_cost_epochs := test_cost_epochs s ++ [test_cost] in
  let? test_acc := compute_accuracy weights weights_last x_test y_test in
  let test_acc_epochs := test_acc_epochs s ++ [test_acc] in
  Ok {| optimizer := optimizer';
        weights_var := (weights, weights_last);
        train_cost_epochs := train_cost_epochs;
        test_cost_epochs := test_cost_epochs;
        train_acc_epochs := train_acc_epochs;
        test_acc_epochs := test_acc_epochs |}.

Fixpoint train_loop `{Simulator} `{Optimizer}
    (x_train : list (list Q)) (y_train : list nat)
    (x_test : list (list Q)) (y_test : list nat)
    (pbar : list nat) (s : loop_state) : result loop_state :=
  match pbar with
  | [] => Ok s
  | _ :: pbar' =>
      let? s' := train_step x_train y_train x_test y_test s in
      train_loop x_train y_train x_test y_test pbar' s'
  end.

(** [train_qcnn], lines 287-338; [desc] only labels the progress bar. *)
Definition train_qcnn `{Simulator} `{Optimizer} `{Sampler} `{Dataset}
    (n_train n_test n_epochs : nat) (desc : string) : result Results.t :=
  let '(x_train, y_train, x_test, y_test) := load_digits_data n_train n_test in
  let s0 := {| optimizer := AdamOptimizer (1 # 100);
               weights_var := init_weights;
               train_cost_epochs := [];
               test_cost_epochs := [];
               train_acc_epochs := [];
               test_acc_epochs := [] |} in
  let pbar := seq 0 n_epochs in
  let? s := train_loop x_train y_train x_test y_test pbar s0 in
  Ok {| Results.n_train := repeat n_train n_epochs;
        Results.step := seq 1 n_epochs;
        Results.train_cost := train_cost_epochs s;
        Results.train_acc := train_acc_epochs s;
        Results.test_cost := test_cost_epochs s;
        Results.test_acc := test_acc_epochs s |}.

(** ** Part II.  Vocabulary of the specification *)

(** The adjacent pairs starting at an even position of [l]:
    (l0,l1), (l2,l3), ... *)
Fixpoint even_pairs {A} (l : list A) : list (A * A) :=
  match l with
  | a :: b :: r => (a, b) :: even_pairs r
  | _ => []
  end.

(** The adjacent pairs starting at an odd position: (l1,l2), (l3,l4), ... *)
Definition odd_pairs {A} (l : list A) : list (A * A) := even_pairs (tl l).

(** The elements at the odd positions of [l]. *)
Definition odd_indexed {A} (l : list A) : list A := map snd (even_pairs l).

(** The two general rotations that open the block of a pair. *)
Definition pre_rotations (ws : list Q) (pr : wire * wire) : list Operation :=
  [U3 (nth 0 ws 0%Q) (nth 1 ws 0%Q) (nth 2 ws 0%Q) (fst pr);
   U3 (nth 3 ws 0%Q) (nth 4 ws 0%Q) (nth 5 ws 0%Q) (snd pr)].

(** Three Ising interactions (X, Y, Z) followed by two general rotations. *)
Definition ising_block (ws : list Q) (pr : wire * wire) : list Operation :=
  [IsingXX (nth 6 ws 0%Q) (fst pr) (snd pr);
   IsingYY (nth 7 ws 0%Q) (fst pr) (snd pr);
   IsingZZ (nth 8 ws 0%Q) (fst pr) (snd pr);
   U3 (nth 9 ws 0%Q) (nth 10 ws 0%Q) (nth 11 ws 0%Q) (fst pr);
   U3 (nth 12 ws 0%Q) (nth 13 ws 0%Q) (nth 14 ws 0%Q) (snd pr)].

Definition pair_block (pre : bool) (ws : list Q) (pr : wire * wire) : list Operation :=
  (if pre then pre_rotations ws pr else []) ++ ising_block ws pr.

(** Measure the second wire of a pair, then rotate the first one under the
    control of the outcome. *)
Definition pool_block (ws : list Q) (pr : wire * wire) : list Operation :=
  [MidMeasure (snd pr);
   Conditional (Outcome (snd pr))
     (U3 (nth 0 ws 0%Q) (nth 1 ws 0%Q) (nth 2 ws 0%Q) (fst pr))].

(** The wires measured by a tape, in order. *)
Fixpoint measured_wires (ops : list Operation) : list wire :=
  match ops with
  | [] => []
  | MidMeasure w :: r => w :: measured_wires r
  | _ :: r => measured_wires r
  end.

(** The wires of [wires] that the tape does not measure. *)
Definition surviving_wires (wires : list wire) (ops : list Operation) : list wire :=
  filter (fun w => negb (existsb (Nat.eqb w) (measured_wires ops))) wires.

(** The body of the inner loop of [convolutional_layer]. *)
Definition conv_step (weights : list Q) (wires : list wire) (skip_first_layer : bool)
    (p : nat) : nat * wire -> Tape unit :=
  fun '(indx, w) =>
    if (indx mod 2 =? p) && (indx <? length wires - 1) then
      (if (indx mod 2 =? 0) && skip_first_layer then
         call_U3 (slice 0 3 weights) w ;;
         w' <- getitem wires (indx + 1) ;;
         call_U3 (slice 3 6 weights) w'
       else ret tt) ;;
      xx <- getitem weights 6 ;;
      w' <- getitem wires (indx + 1) ;;
      emit (IsingXX xx w w') ;;
      yy <- getitem weights 7 ;;
      w' <- getitem wires (indx + 1) ;;
      emit (IsingYY yy w w') ;;
      zz <- getitem weights 8 ;;
      w' <- getitem wires (indx + 1) ;;
      emit (IsingZZ zz w w') ;;
      call_U3 (slice 9 12 weights) w ;;
      w' <- getitem wires (indx + 1) ;;
      call_U3 (slice_from 12 weights) w'
    else ret tt.

(** The body of the loop of [pooling_layer]. *)
Definition pool_step (weights : list Q) (wires : list wire) : nat * wire -> Tape unit :=
  fun '(indx, w) =>
    if (indx mod 2 =? 1) && (indx <? length wires) then
      m_outcome <- measure w ;;
      w' <- getitem wires (indx - 1) ;;
      cond m_outcome (call_U3 weights w')
    else ret tt.

Definition raises_assertion {A} (t : Tape A) : bool :=
  match fst t with
  | Raise (AssertionError _) => true
  | _ => false
  end.

(** The operation queued by the dense layer. *)
Definition is_dense (op : Operation) : bool :=
  match op with
  | ArbitraryUnitary _ _ => true
  | _ => false
  end.

(** A computation that queues no dense-layer operation. *)
Definition no_dense {A} (t : Tape A) : Prop := existsb is_dense (snd t) = false.

(** The wires still active after [j] rounds: [wires[::2]] applied [j] times
    to the full register. *)
Definition active_wires (j : nat) : list wire := Nat.iter j stride2 (seq 0 num_wires).

(** One round, in the words of the specification: the first 15 entries of
    column [j] go to the convolutional layer, the remaining ones to the
    pooling layer, both over the wires active at round [j]. *)
Definition round (weights : tensor) (j : nat) : Tape unit :=
  convolutional_layer (firstn 15 (nth j weights [])) (active_wires j) true ;;
  pooling_layer (skipn 15 (nth j weights [])) (active_wires j).

(** The network as the specification describes it. *)
Definition conv_net_described (weights : tensor) (last_layer_weights : list Q)
    (features : list Q) : Tape MeasurementProcess :=
  let L := shape1 weights in
  emit (AmplitudeEmbedding features (seq 0 num_wires) (1 # 2)) ;;
  for_each (seq 0 L) (round weights) ;;
  assert (length last_layer_weights =? 4 ^ length (active_wires L) - 1)
         (last_layer_msg (4 ^ length (active_wires L) - 1) (length last_layer_weights)) ;;
  dense_layer last_layer_weights (active_wires L) ;;
  ret (Probs [0]).

(** The weights are valid when the network builds on them. *)
Definition circuit_builds (weights : tensor) (weights_last : list Q) : Prop :=
  fst (conv_net weights weights_last []) = Ok (Probs [0]).

(** The probability that the network assigns to the label of a sample. *)
Definition assigned_probability `{Simulator} (weights : tensor) (weights_last : list Q)
    (sample : list Q * nat) : float32 :=
  nth (snd sample)
      (execute (snd (conv_net weights weights_last (fst sample))) (Probs [0])) zero32.





(** [x < y] on float32 numbers. *)
Definition lt32 (x y : float32) : Prop := ltb32 x y = true.


Definition same_outcome {A B} (t : Tape A) (t' : Tape B) : Prop :=
  match fst t, fst t' with
  | Ok _, Ok _ => True
  | Raise e, Raise e' => e = e'
  | _, _ => False
  end.

Definition same_shape (p p' : params) : Prop :=
  map (@length Q) (fst p) = map (@length Q) (fst p') /\ length (snd p) = length (snd p').

(** The objective handed to the optimizer: the cost on the training batch as
    a function of the two weight arrays. *)
Definition objective `{Simulator} (x_train : list (list Q)) (y_train : list nat)
    : params -> result float32 :=
  fun p => compute_cost (fst p) (snd p) x_train y_train.

(** The optimizer state and the weights after [k] optimizer steps from the
    initial weights: the weights that epoch k+1 starts from. *)
Fixpoint trajectory `{Simulator} `{Optimizer} `{Sampler}
    (x_train : list (list Q)) (y_train : list nat) (k : nat)
    : result (opt_state * params) :=
  match k with
  | O => Ok (AdamOptimizer (1 # 100), init_weights)
  | S k' =>
      let? (st, p) := trajectory x_train y_train k' in
      let? (st', p', _) := step_and_cost st (objective x_train y_train) p in
      Ok (st', p')
  end.

(** What epoch k+1 does and records: one optimizer step from the weights
    [p] reached after k steps to the weights [p'], the cost recorded being
    the one the optimizer returns, which is the cost at [p]; the three other
    metrics are evaluated at [p']. *)
Definition epoch_record `{Simulator} `{Optimizer} `{Sampler}
    (x_train : list (list Q)) (y_train : list nat)
    (x_test : list (list Q)) (y_test : list nat)
    (k : nat) (train_cost train_acc test_cost test_acc : float32) : Prop :=
  exists st p st' p',
    trajectory x_train y_train k = Ok (st, p)
    /\ step_and_cost st (objective x_train y_train) p = Ok (st', p', train_cost)
    /\ trajectory x_train y_train (S k) = Ok (st', p')
    /\ compute_cost (fst p) (snd p) x_train y_train = Ok train_cost
    /\ compute_accuracy (fst p') (snd p') x_train y_train = Ok train_acc
    /\ compute_cost (fst p') (snd p') x_test y_test = Ok test_cost
    /\ compute_accuracy (fst p') (snd p') x_test y_test = Ok test_acc.

(** The state of the loop after [n] iterations. *)
Definition after_epochs `{Simulator} `{Optimizer} `{Sampler}
    (x_train : list (list Q)) (y_train : list nat)
    (x_test : list (list Q)) (y_test : list nat)
    (n : nat) (s : loop_state) : Prop :=
  trajectory x_train y_train n = Ok (optimizer s, weights_var s)
  /\ same_shape init_weights (weights_var s)
  /\ length (train_cost_epochs s) = n
  /\ length (train_acc_epochs s) = n
  /\ length (test_cost_epochs s) = n
  /\ length (test_acc_epochs s) = n
  /\ forall k, k < n ->
       epoch_record x_train y_train x_test y_test k
         (nth k (train_cost_epochs s) zero32) (nth k (train_acc_epochs s) zero32)
         (nth k (test_cost_epochs s) zero32) (nth k (test_acc_epochs s) zero32).

(** The loop variables when the loop is entered. *)
Definition initial_state `{Optimizer} `{Sampler} : loop_state :=
  {| optimizer := AdamOptimizer (1 # 100);
     weights_var := init_weights;
     train_cost_epochs := [];
     test_cost_epochs := [];
     train_acc_epochs := [];
     test_acc_epochs := [] |}.

(** ** Part I, continued.  The dataset loader, [load_digits_data] (lines 234-252) *)

(** What the loader takes from its libraries: the random generator with its
    [choice] (called with [replace=False]; it advances the generator), the
    digits dataset ([data], [target]) and the Euclidean norm of a row. *)
Class DigitsLibraries : Type := {
  Generator : Type;
  choice : Generator -> list nat -> nat -> result (list nat) * Generator;
  load_digits : list (list Q) * list nat;
  norm : list Q -> Q
}.

Module Loader.

(** [a[idx]] for an array of indices: one entry per index, in order; an
    index out of range raises IndexError. *)
Fixpoint take {A} (a : list A) (idx : list nat) : result (list A) :=
  match idx with
  | [] => Ok []
  | i :: r =>
      match nth_error a i with
      | Some x => let? xs := take a r in Ok (x :: xs)
      | None => Raise IndexError
      end
  end.

(** [np.where((labels == 0) | (labels == 1))]: the positions of the labels
    0 and 1, in increasing order. *)
Definition where_01 (labels : list nat) : list nat :=
  map fst (filter (fun '(_, l) => (l =? 0) || (l =? 1)) (enumerate labels)).

(** [np.setdiff1d(a, b)] for a sorted array [a] without repetitions. *)
Definition setdiff1d (a b : list nat) : list nat :=
  filter (fun i => negb (existsb (Nat.eqb i) b)) a.

(** [features / np.linalg.norm(features, axis=1).reshape((-1, 1))] *)
Definition normalize `{DigitsLibraries} (features : list (list Q)) : list (list Q) :=
  map (fun row => map (fun x => x / norm row)%Q row) features.

Definition load_digits_data `{DigitsLibraries} (num_train num_test : nat) (rng : Generator)
    : result (list (list Q) * list nat * list (list Q) * list nat) * Generator :=
  let (features, labels) := load_digits in
  match take features (where_01 labels) with
  | Raise e => (Raise e, rng)
  | Ok features =>
  match take labels (where_01 labels) with
  | Raise e => (Raise e, rng)
  | Ok labels =>
  let features := normalize features in
  match choice rng (seq 0 (length labels)) num_train with
  | (Raise e, rng) => (Raise e, rng)
  | (Ok train_indices, rng) =>
  match choice rng (setdiff1d (seq 0 (length labels)) train_indices) num_test with
  | (Raise e, rng) => (Raise e, rng)
  | (Ok test_indices, rng) =>
      (let? x_train := take features train_indices in
       let? y_train := take labels train_indices in
       let? x_test := take features test_indices in
       let? y_test := take labels test_indices in
       Ok (x_train, y_train, x_test, y_test), rng)
  end end end end.

End Loader.

(** ** Part II, continued.  Vocabulary for further properties of the code *)

(** The wires an operation acts on. *)
Fixpoint op_wires (op : Operation) : list wire :=
  match op with
  | AmplitudeEmbedding _ ws _ => ws
  | U3 _ _ _ w => [w]
  | IsingXX _ w1 w2 => [w1; w2]
  | IsingYY _ w1 w2 => [w1; w2]
  | IsingZZ _ w1 w2 => [w1; w2]
  | MidMeasure w => [w]
  | Conditional _ op' => op_wires op'
  | ArbitraryUnitary _ ws => ws
  end.

(** Every operation of the tape acts on wires of [ws] only. *)
Definition within (ws : list wire) {A} (t : Tape A) : Prop :=
  forall op w, In op (snd t) -> In w (op_wires op) -> In w ws.

(** The adjacent pairs of a list: (l0,l1), (l1,l2), ... *)
Definition adjacent_pairs {A} (l : list A) : list (A * A) := combine l (tl l).

(** The wire pairs coupled by each kind of Ising interaction, in tape order. *)
Fixpoint xx_pairs (ops : list Operation) : list (wire * wire) :=
  match ops with
  | [] => []
  | IsingXX _ w1 w2 :: r => (w1, w2) :: xx_pairs r
  | _ :: r => xx_pairs r
  end.

Fixpoint yy_pairs (ops : list Operation) : list (wire * wire) :=
  match ops with
  | [] => []
  | IsingYY _ w1 w2 :: r => (w1, w2) :: yy_pairs r
  | _ :: r => yy_pairs r
  end.

Fixpoint zz_pairs (ops : list Operation) : list (wire * wire) :=
  match ops with
  | [] => []
  | IsingZZ _ w1 w2 :: r => (w1, w2) :: zz_pairs r
  | _ :: r => zz_pairs r
  end.

(** Once a wire has been measured no later operation acts on it. *)
Fixpoint untouched_after_measure (ops : list Operation) : bool :=
  match ops with
  | [] => true
  | MidMeasure w :: r =>
      forallb (fun op => negb (existsb (Nat.eqb w) (op_wires op))) r
      && untouched_after_measure r
  | _ :: r => untouched_after_measure r
  end.

(** What the loader relies on from [choice] without replacement: the sample
    has the requested size, comes from the population, and does not repeat
    an entry of a population without repetitions. *)
Definition choice_contract `{DigitsLibraries} : Prop :=
  forall g population size idx g',
    choice g population size = (Ok idx, g') ->
    length idx = size
    /\ incl idx population
    /\ (NoDup population -> NoDup idx).

(** The normalisation of one row. *)
Definition normalize_row `{DigitsLibraries} (row : list Q) : list Q :=
  map (fun x => x / norm row)%Q row.

(** Sample [x] is the normalised row of the dataset at the position that
    entry [k] of the filtered arrays comes from; label [y] is the target at
    that position. *)
Definition feature_from `{DigitsLibraries} (data : list (list Q)) (W : list nat)
    (k : nat) (x : list Q) : Prop :=
  exists i row, nth_error W k = Some i /\ nth_error data i = Some row
                /\ x = normalize_row row.

Definition label_from (target : list nat) (W : list nat) (k : nat) (y : nat) : Prop :=
  exists i l, nth_error W k = Some i /\ nth_error target i = Some l /\ y = l.

(** ** Example inputs and collaborators *)

Definition zero_weights : tensor := [repeat 0%Q 18; repeat 0%Q 18].
Definition basis_features : list Q := 1%Q :: repeat 0%Q 63.

(** A small device for examples: it reads the first feature x off the
    embedding and the first weight b off the dense layer, and answers with
    the distribution (x + b, 1 - (x + b)), rounded to float32. *)
Definition toy_simulator : Simulator :=
  fun tape _ =>
    let x := match tape with
             | AmplitudeEmbedding (x :: _) _ _ :: _ => x
             | _ => (1 # 2)%Q
             end in
    let b := match last tape (MidMeasure 0) with
             | ArbitraryUnitary (b :: _) _ => b
             | _ => 0%Q
             end in
    [round32 (x + b); round32 (1 - (x + b))].

Definition toy_weights_last : list Q := repeat 0%Q 15.


(** An optimizer for examples: it counts its steps and moves every weight by
    one hundredth; it returns the objective at the point it was given. *)
Definition toy_optimizer : Optimizer :=
  {| opt_state := nat;
     AdamOptimizer := fun _ => 0;
     step_and_cost := fun st f p =>
       match f p with
       | Ok c => Ok (S st, (map (map (Qplus (1 # 100))) (fst p),
                            map (Qplus (1 # 100)) (snd p)), c)
       | Raise e => Raise e
       end |}.

Definition toy_sampler : Sampler := fun _ => 0%Q.

Definition toy_dataset : Dataset :=
  fun n_train n_test =>
    (repeat [3 # 4]%Q n_train, repeat 0 n_train, repeat [1 # 4]%Q n_test, repeat 1 n_test).

(** Libraries for examples: [choice] takes the first entries of the
    population, the dataset has four rows, and the norm is the sum of the
    entries. *)
Definition toy_libraries : DigitsLibraries :=
  {| Generator := nat;
     choice := fun g population size =>
       if size <=? length population
       then (Ok (firstn size population), S g)
       else (Raise ValueError, g);
     load_digits := ([[3; 4]; [1; 0]; [0; 2]; [5; 12]; [2; 2]]%Q, [0; 7; 1; 1; 0]);
     norm := fun row => fold_right Qplus 0%Q row |}.

(** ** Part III.  Lemmas and theorems *)

(** *** Laws of the tape monad *)

Lemma bind_ret_l {A B} (a : A) (f : A -> Tape B) : bind (ret a) f = f a.
Proof. unfold bind, ret. destruct (f a). reflexivity. Qed.

Lemma bind_ok {A B} (a : A) (ops : list Operation) (f : A -> Tape B) :
  bind (Ok a, ops) f = (fst (f a), ops ++ snd (f a)).
Proof. unfold bind. destruct (f a). reflexivity. Qed.

Lemma bind_raise {A B} (e : exn) (ops : list Operation) (f : A -> Tape B) :
  bind (Raise e, ops) f = (Raise e, ops).
Proof. reflexivity. Qed.

Lemma bind_assoc {A B C} (m : Tape A) (f : A -> Tape B) (g : B -> Tape C) :
  bind (bind m f) g = bind m (fun a => bind (f a) g).
Proof.
  destruct m as [[a|e] ops]; simpl; [|reflexivity].
  destruct (f a) as [[b|e] ops1]; simpl; [|reflexivity].
  destruct (g b) as [r ops2]. now rewrite app_assoc.
Qed.

Lemma getitem_nth {A} (l : list A) (i : nat) (d : A) :
  i < length l -> getitem l i = ret (nth i l d).
Proof.
  intros H. unfold getitem. now rewrite (nth_error_nth' l d H).
Qed.

Lemma parity_succ (k : nat) : S k mod 2 = 1 - k mod 2 /\ k mod 2 < 2.
Proof.
  split; [|apply Nat.mod_upper_bound; lia].
  pose proof (Nat.div_mod_eq k 2). pose proof (Nat.div_mod_eq (S k) 2).
  pose proof (Nat.mod_upper_bound k 2). pose proof (Nat.mod_upper_bound (S k) 2).
  lia.
Qed.

(** *** The loops of the circuit builders *)

Lemma convolutional_layer_eq weights wires skip :
  convolutional_layer weights wires skip =
  (assert (3 <=? length wires) too_small ;;
   for_each [0; 1] (fun p => for_each (enumerate wires) (conv_step weights wires skip p))).
Proof. reflexivity. Qed.

Lemma pooling_layer_eq weights wires :
  pooling_layer weights wires =
  (assert (2 <=? length wires) too_small ;;
   for_each (enumerate wires) (pool_step weights wires)).
Proof. reflexivity. Qed.

Ltac split_list l n :=
  match n with
  | O => idtac
  | S ?m => let x := fresh "a" in
            destruct l as [|x l]; [discriminate|]; split_list l m
  end.

Lemma conv_step_pair weights wires skip p indx w w' :
  length weights = 15 ->
  nth_error wires (indx + 1) = Some w' ->
  indx mod 2 = p ->
  conv_step weights wires skip p (indx, w)
  = (Ok tt, pair_block ((p =? 0) && skip) weights (w, w')).
Proof.
  intros Hlen Hnth Hp.
  assert (Hlt : indx + 1 < length wires) by (apply nth_error_Some; congruence).
  split_list weights 15. destruct weights; [|discriminate].
  unfold conv_step. rewrite Hp, Nat.eqb_refl.
  replace (indx <? length wires - 1) with true by (symmetry; apply Nat.ltb_lt; lia).
  unfold getitem. rewrite Hnth.
  destruct (p =? 0), skip; reflexivity.
Qed.

Lemma conv_step_idle weights wires skip p indx w :
  indx mod 2 <> p \/ length wires <= indx + 1 ->
  conv_step weights wires skip p (indx, w) = ret tt.
Proof.
  intros H. unfold conv_step.
  destruct (Nat.eqb_spec (indx mod 2) p) as [E|E]; [|reflexivity].
  destruct (Nat.ltb_spec indx (length wires - 1)); [lia|reflexivity].
Qed.

Lemma conv_sweep weights skip p (l pre : list wire) :
  length weights = 15 -> p < 2 ->
  for_each (combine (seq (length pre) (length l)) l)
           (conv_step weights (pre ++ l) skip p)
  = (Ok tt, flat_map (pair_block ((p =? 0) && skip) weights)
              (if length pre mod 2 =? p then even_pairs l else odd_pairs l)).
Proof.
  intros Hw Hp. revert pre.
  induction l as [|x l IH]; intros pre.
  - destruct (length pre mod 2 =? p); reflexivity.
  - specialize (IH (pre ++ [x])).
    rewrite <- app_assoc, length_app in IH. cbn [app length] in IH.
    replace (length pre + 1) with (S (length pre)) in IH by lia.
    destruct (parity_succ (length pre)) as [HS Hlt].
    cbn [length seq combine for_each].
    destruct (Nat.eqb_spec (length pre mod 2) p) as [E|E].
    + replace (S (length pre) mod 2 =? p) with false in IH
        by (symmetry; apply Nat.eqb_neq; lia).
      destruct l as [|y l].
      * rewrite conv_step_idle by (right; rewrite length_app; simpl; lia).
        rewrite bind_ret_l. reflexivity.
      * rewrite (conv_step_pair weights _ skip p _ x y Hw); [| |exact E].
        -- rewrite IH. reflexivity.
        -- rewrite nth_error_app2 by lia.
           replace (length pre + 1 - length pre) with 1 by lia. reflexivity.
    + replace (S (length pre) mod 2 =? p) with true in IH
        by (symmetry; apply Nat.eqb_eq; lia).
      rewrite conv_step_idle by (left; exact E).
      rewrite bind_ret_l. exact IH.
Qed.

(** What [convolutional_layer] queues on a wire list of length at least 3
    with a block of 15 weights: the even-indexed pairs, then the odd-indexed
    pairs; the two opening rotations appear on the even-indexed pairs exactly
    when [skip_first_layer] is true. *)
Lemma convolutional_layer_run weights wires skip :
  length weights = 15 -> 3 <= length wires ->
  convolutional_layer weights wires skip
  = (Ok tt, flat_map (pair_block skip weights) (even_pairs wires)
            ++ flat_map (pair_block false weights) (odd_pairs wires)).
Proof.
  intros Hw Hn. rewrite convolutional_layer_eq.
  replace (3 <=? length wires) with true by (symmetry; apply Nat.leb_le; exact Hn).
  unfold assert. rewrite bind_ret_l. cbn [for_each].
  unfold enumerate.
  pose proof (conv_sweep weights skip 0 wires [] Hw ltac:(lia)) as H0.
  pose proof (conv_sweep weights skip 1 wires [] Hw ltac:(lia)) as H1.
  simpl in H0, H1. rewrite H0, bind_ok, H1. simpl.
  rewrite app_nil_r. reflexivity.
Qed.

Lemma pool_step_pair weights wires indx w w' :
  length weights = 3 ->
  nth_error wires indx = Some w ->
  nth_error wires (indx - 1) = Some w' ->
  indx mod 2 = 1 ->
  pool_step weights wires (indx, w) = (Ok tt, pool_block weights (w', w)).
Proof.
  intros Hlen Hw Hw' Hp.
  assert (Hlt : indx < length wires) by (apply nth_error_Some; congruence).
  split_list weights 3. destruct weights; [|discriminate].
  unfold pool_step. rewrite Hp.
  replace (indx <? length wires) with true by (symmetry; apply Nat.ltb_lt; lia).
  unfold getitem. rewrite Hw'. reflexivity.
Qed.

Lemma pool_step_idle weights wires indx w :
  indx mod 2 <> 1 -> pool_step weights wires (indx, w) = ret tt.
Proof.
  intros H. unfold pool_step.
  destruct (Nat.eqb_spec (indx mod 2) 1) as [E|E]; [contradiction|reflexivity].
Qed.

Lemma pair_induction {A} (P : list A -> Prop) :
  P [] -> (forall x, P [x]) -> (forall x y l, P l -> P (x :: y :: l)) ->
  forall l, P l.
Proof.
  intros H0 H1 H2 l.
  enough (P l /\ forall x, P (x :: l)) by tauto.
  induction l as [|y l [IHa IHb]]; split; auto.
Qed.

Lemma pool_sweep weights (l pre : list wire) :
  length weights = 3 -> length pre mod 2 = 0 ->
  for_each (combine (seq (length pre) (length l)) l) (pool_step weights (pre ++ l))
  = (Ok tt, flat_map (pool_block weights) (even_pairs l)).
Proof.
  intros Hw. revert pre.
  induction l as [|x|x y l IH] using pair_induction; intros pre Hpre.
  - reflexivity.
  - cbn [length seq combine for_each].
    rewrite pool_step_idle by lia. reflexivity.
  - specialize (IH (pre ++ [x; y])).
    rewrite <- app_assoc, length_app in IH. cbn [app length] in IH.
    replace (length pre + 2) with (S (S (length pre))) in IH by lia.
    destruct (parity_succ (length pre)) as [HS _].
    destruct (parity_succ (S (length pre))) as [HSS _].
    cbn [length seq combine for_each].
    rewrite pool_step_idle by lia. rewrite bind_ret_l.
    rewrite (pool_step_pair weights _ _ y x Hw).
    + rewrite IH by lia. reflexivity.
    + rewrite nth_error_app2 by lia.
      replace (S (length pre) - length pre) with 1 by lia. reflexivity.
    + rewrite nth_error_app2 by lia.
      replace (S (length pre) - 1 - length pre) with 0 by lia. reflexivity.
    + lia.
Qed.

(** What [pooling_layer] queues on a wire list of length at least 2 with a
    block of 3 weights. *)
Lemma pooling_layer_run weights wires :
  length weights = 3 -> 2 <= length wires ->
  pooling_layer weights wires
  = (Ok tt, flat_map (pool_block weights) (even_pairs wires)).
Proof.
  intros Hw Hn. rewrite pooling_layer_eq.
  replace (2 <=? length wires) with true by (symmetry; apply Nat.leb_le; exact Hn).
  unfold assert. rewrite bind_ret_l. unfold enumerate.
  exact (pool_sweep weights wires [] Hw eq_refl).
Qed.

Lemma convolutional_layer_small weights wires skip :
  length wires < 3 ->
  convolutional_layer weights wires skip = (Raise (AssertionError too_small), []).
Proof.
  intros H. rewrite convolutional_layer_eq.
  replace (3 <=? length wires) with false by (symmetry; apply Nat.leb_gt; exact H).
  reflexivity.
Qed.

Lemma pooling_layer_small weights wires :
  length wires < 2 ->
  pooling_layer weights wires = (Raise (AssertionError too_small), []).
Proof.
  intros H. rewrite pooling_layer_eq.
  replace (2 <=? length wires) with false by (symmetry; apply Nat.leb_gt; exact H).
  reflexivity.
Qed.

(** *** Positions of a wire list *)

Lemma half_SS (n : nat) : S (S n) / 2 = S (n / 2).
Proof.
  replace (S (S n)) with (n + 1 * 2) by lia.
  rewrite Nat.div_add by lia. lia.
Qed.

(** The pairs of [even_pairs] are the elements at positions (2i, 2i+1). *)
Lemma even_pairs_nth {A} (d : A) (l : list A) :
  even_pairs l
  = map (fun i => (nth (2 * i) l d, nth (2 * i + 1) l d)) (seq 0 (length l / 2)).
Proof.
  induction l as [|x|x y l IH] using pair_induction; try reflexivity.
  cbn [even_pairs length]. rewrite half_SS, IH.
  cbn [seq map]. rewrite <- seq_shift, map_map.
  f_equal. apply map_ext. intros i.
  replace (2 * S i) with (S (S (2 * i))) by lia. reflexivity.
Qed.

(** [l[::2]] holds the elements at the even positions 0, 2, 4, ... *)
Lemma stride2_nth {A} (d : A) (l : list A) :
  stride2 l = map (fun i => nth (2 * i) l d) (seq 0 ((length l + 1) / 2)).
Proof.
  induction l as [|x|x y l IH] using pair_induction; try reflexivity.
  cbn [stride2 length]. replace (S (S (length l)) + 1) with (S (S (length l + 1))) by lia.
  rewrite half_SS, IH.
  cbn [seq map]. rewrite <- seq_shift, map_map.
  f_equal. apply map_ext. intros i.
  replace (2 * S i) with (S (S (2 * i))) by lia. reflexivity.
Qed.

Lemma odd_indexed_nth {A} (d : A) (l : list A) :
  odd_indexed l = map (fun i => nth (2 * i + 1) l d) (seq 0 (length l / 2)).
Proof.
  unfold odd_indexed. rewrite (even_pairs_nth d), map_map. reflexivity.
Qed.

Lemma even_pairs_length {A} (l : list A) : length (even_pairs l) = length l / 2.
Proof.
  induction l as [|x|x y l IH] using pair_induction; try reflexivity.
  cbn [even_pairs length]. now rewrite half_SS, IH.
Qed.

Lemma stride2_length {A} (l : list A) : length (stride2 l) = (length l + 1) / 2.
Proof.
  induction l as [|x|x y l IH] using pair_induction; try reflexivity.
  cbn [stride2 length]. replace (S (S (length l)) + 1) with (S (S (length l + 1))) by lia.
  rewrite half_SS, IH. reflexivity.
Qed.

Lemma stride2_In {A} (l : list A) (w : A) : In w (stride2 l) -> In w l.
Proof.
  induction l as [|x|x y l IH] using pair_induction; auto.
  simpl. intros [E|H]; [left; exact E|right; right; auto].
Qed.

Lemma odd_indexed_In {A} (l : list A) (w : A) : In w (odd_indexed l) -> In w l.
Proof.
  induction l as [|x|x y l IH] using pair_induction.
  - intros [].
  - intros [].
  - unfold odd_indexed in *. simpl.
    intros [E|H]; [right; left; exact E|right; right; auto].
Qed.

Lemma stride2_odd_disjoint (l : list wire) (w : wire) :
  NoDup l -> In w (stride2 l) -> In w (odd_indexed l) -> False.
Proof.
  induction l as [|x|x y l IH] using pair_induction; intros Hnd He Ho.
  - destruct He.
  - destruct Ho.
  - inversion Hnd as [|? ? Hx Hnd']; subst. inversion Hnd' as [|? ? Hy Hnd'']; subst.
    assert (Ho' : y = w \/ In w (odd_indexed l)) by exact Ho.
    simpl in He.
    destruct He as [He|He], Ho' as [Ho'|Ho']; subst.
    + apply Hx. left. reflexivity.
    + apply Hx. right. apply odd_indexed_In. exact Ho'.
    + apply Hy. apply stride2_In. exact He.
    + apply IH; assumption.
Qed.

Lemma measured_pool_blocks weights (prs : list (wire * wire)) :
  measured_wires (flat_map (pool_block weights) prs) = map snd prs.
Proof.
  induction prs as [|pr prs IH]; [reflexivity|].
  cbn [flat_map pool_block app measured_wires map]. now rewrite IH.
Qed.

Lemma filter_unmeasured (m l : list wire) :
  (forall w, In w (stride2 l) -> ~ In w m) ->
  (forall w, In w (odd_indexed l) -> In w m) ->
  filter (fun w => negb (existsb (Nat.eqb w) m)) l = stride2 l.
Proof.
  assert (Hin : forall w, existsb (Nat.eqb w) m = true <-> In w m).
  { intros w. rewrite existsb_exists. split.
    - intros [v [Hv E]]. apply Nat.eqb_eq in E. now subst.
    - intros H. exists w. split; [exact H|apply Nat.eqb_refl]. }
  induction l as [|x|x y l IH] using pair_induction; intros He Ho.
  - reflexivity.
  - cbn [filter stride2].
    destruct (existsb (Nat.eqb x) m) eqn:E; [|reflexivity].
    apply Hin in E. exfalso. apply (He x); [left; reflexivity|exact E].
  - cbn [filter stride2].
    destruct (existsb (Nat.eqb x) m) eqn:Ex.
    { apply Hin in Ex. exfalso. apply (He x); [left; reflexivity|exact Ex]. }
    destruct (existsb (Nat.eqb y) m) eqn:Ey.
    + cbn [negb]. f_equal. apply IH.
      * intros w Hw. apply He. right. exact Hw.
      * intros w Hw. apply Ho. right. exact Hw.
    + exfalso. assert (In y m) as Hy by (apply Ho; left; reflexivity).
      apply Hin in Hy. congruence.
Qed.

(** *** Claims on the circuit builders *)

(** C1 (the flag is inverted in the code).  On the wires 0,1,2 with the
    weights 0..14, [convolutional_layer] called with [skip_first_layer = False]
    queues no opening rotation at all on the even-indexed pair (0,1), and
    called with [skip_first_layer = True] it queues both of them; in both
    runs each pair gets its three Ising interactions and two closing
    rotations. *)
Theorem convolutional_layer_flag_inverted :
  let weights := [0; 1; 2; 3; 4; 5; 6; 7; 8; 9; 10; 11; 12; 13; 14]%Q in
  convolutional_layer weights [0; 1; 2] false
  = (Ok tt,
     [IsingXX 6 0 1; IsingYY 7 0 1; IsingZZ 8 0 1; U3 9 10 11 0; U3 12 13 14 1;
      IsingXX 6 1 2; IsingYY 7 1 2; IsingZZ 8 1 2; U3 9 10 11 1; U3 12 13 14 2])
  /\ convolutional_layer weights [0; 1; 2] true
  = (Ok tt,
     [U3 0 1 2 0; U3 3 4 5 1;
      IsingXX 6 0 1; IsingYY 7 0 1; IsingZZ 8 0 1; U3 9 10 11 0; U3 12 13 14 1;
      IsingXX 6 1 2; IsingYY 7 1 2; IsingZZ 8 1 2; U3 9 10 11 1; U3 12 13 14 2]).
Proof. split; reflexivity. Qed.

(** C4.  On a wire list of length n >= 2 (with the 3 weights of one
    rotation) [pooling_layer] succeeds and queues, for i = 0 .. n/2 - 1, the
    measurement of the wire at the odd position 2i+1 followed by the rotation
    of the wire at position 2i, controlled by that outcome.  The measured
    wires are exactly those at the odd positions, there are n/2 of them, and
    the wires left unmeasured are those at the even positions, [wires[::2]]
    (the wires of a list being distinct). *)
Theorem pooling_layer_measures_odd_wires (weights : list Q) (wires : list wire) :
  length weights = 3 -> 2 <= length wires ->
  let ops := snd (pooling_layer weights wires) in
  fst (pooling_layer weights wires) = Ok tt
  /\ ops = flat_map (fun i =>
             [MidMeasure (nth (2 * i + 1) wires 0);
              Conditional (Outcome (nth (2 * i + 1) wires 0))
                (U3 (nth 0 weights 0%Q) (nth 1 weights 0%Q) (nth 2 weights 0%Q)
                    (nth (2 * i) wires 0))])
           (seq 0 (length wires / 2))
  /\ measured_wires ops = map (fun i => nth (2 * i + 1) wires 0) (seq 0 (length wires / 2))
  /\ length (measured_wires ops) = length wires / 2
  /\ (NoDup wires -> surviving_wires wires ops = stride2 wires).
Proof.
  intros Hw Hn ops. subst ops. rewrite (pooling_layer_run weights wires Hw Hn).
  cbn [fst snd]. split; [reflexivity|].
  split.
  { rewrite (@even_pairs_nth wire 0 wires), flat_map_concat_map, map_map,
      <- flat_map_concat_map. reflexivity. }
  rewrite measured_pool_blocks. fold (odd_indexed wires).
  split; [apply (@odd_indexed_nth wire)|].
  split.
  { unfold odd_indexed. now rewrite length_map, even_pairs_length. }
  intros Hnd. unfold surviving_wires. rewrite measured_pool_blocks.
  fold (odd_indexed wires). apply filter_unmeasured; [|auto].
  intros w He Ho. exact (stride2_odd_disjoint wires w Hnd He Ho).
Qed.

Lemma pooling_layer_measures_odd_wires_witness :
  let weights := [1; 2; 3]%Q in
  let wires := [0; 1; 2; 3; 4] in
  snd (pooling_layer weights wires)
  = [MidMeasure 1; Conditional (Outcome 1) (U3 1 2 3 0);
     MidMeasure 3; Conditional (Outcome 3) (U3 1 2 3 2)]
  /\ surviving_wires wires (snd (pooling_layer weights wires)) = [0; 2; 4].
Proof.
  intros weights wires.
  destruct (pooling_layer_measures_odd_wires weights wires eq_refl ltac:(simpl; lia))
    as (_ & Hops & _ & _ & Hsurv).
  split.
  - rewrite Hops. reflexivity.
  - rewrite Hsurv; [reflexivity|].
    repeat constructor; simpl; intuition lia.
Defined.

Lemma bind_no_assertion {A B} (m : Tape A) (f : A -> Tape B) :
  raises_assertion m = false ->
  (forall a, raises_assertion (f a) = false) ->
  raises_assertion (bind m f) = false.
Proof.
  intros Hm Hf. destruct m as [[a|e] ops]; [|exact Hm].
  specialize (Hf a). unfold bind. destruct (f a) as [r ops']. exact Hf.
Qed.

Lemma for_each_no_assertion {A} (l : list A) (body : A -> Tape unit) :
  (forall x, raises_assertion (body x) = false) ->
  raises_assertion (for_each l body) = false.
Proof.
  intros H. induction l as [|x l IH]; [reflexivity|].
  cbn [for_each]. apply bind_no_assertion; auto.
Qed.

Lemma getitem_no_assertion {A} (l : list A) (i : nat) :
  raises_assertion (getitem l i) = false.
Proof. unfold getitem. now destruct (nth_error l i). Qed.

Lemma call_U3_no_assertion (args : list Q) (w : wire) :
  raises_assertion (call_U3 args w) = false.
Proof. destruct args as [|a [|b [|c [|d args]]]]; reflexivity. Qed.

Ltac no_assertion :=
  repeat first
    [ reflexivity
    | apply getitem_no_assertion
    | apply call_U3_no_assertion
    | apply bind_no_assertion; [|intros ?] ].

Lemma conv_step_no_assertion weights wires skip p x :
  raises_assertion (conv_step weights wires skip p x) = false.
Proof.
  destruct x as [indx w]. unfold conv_step.
  destruct (_ && _); [|reflexivity].
  destruct (_ && _); no_assertion.
Qed.

Lemma pool_step_no_assertion weights wires x :
  raises_assertion (pool_step weights wires x) = false.
Proof.
  destruct x as [indx w]. unfold pool_step.
  destruct (_ && _); [|reflexivity].
  no_assertion.
Qed.

(** C5.  [convolutional_layer] raises its assertion error, with nothing
    queued, on every wire list shorter than 3, and [pooling_layer] does so on
    every wire list shorter than 2.  On wire lists that meet the bounds the
    assertion never fires, whatever the weights, and with weight blocks of
    the documented sizes (15 and 3) nothing at all is raised. *)
Theorem wire_count_preconditions (kernel pool_weights : list Q) (wires : list wire)
    (skip_first_layer : bool) :
  (length wires < 3 ->
     convolutional_layer kernel wires skip_first_layer
     = (Raise (AssertionError too_small), []))
  /\ (length wires < 2 ->
     pooling_layer pool_weights wires = (Raise (AssertionError too_small), []))
  /\ (3 <= length wires ->
     raises_assertion (convolutional_layer kernel wires skip_first_layer) = false
     /\ (length kernel = 15 ->
         fst (convolutional_layer kernel wires skip_first_layer) = Ok tt))
  /\ (2 <= length wires ->
     raises_assertion (pooling_layer pool_weights wires) = false
     /\ (length pool_weights = 3 -> fst (pooling_layer pool_weights wires) = Ok tt)).
Proof.
  split; [apply convolutional_layer_small|].
  split; [apply pooling_layer_small|].
  split.
  - intros Hn. split.
    + rewrite convolutional_layer_eq.
      replace (3 <=? length wires) with true by (symmetry; apply Nat.leb_le; exact Hn).
      unfold assert. rewrite bind_ret_l.
      apply for_each_no_assertion. intros p.
      apply for_each_no_assertion. apply conv_step_no_assertion.
    + intros Hk. now rewrite convolutional_layer_run.
  - intros Hn. split.
    + rewrite pooling_layer_eq.
      replace (2 <=? length wires) with true by (symmetry; apply Nat.leb_le; exact Hn).
      unfold assert. rewrite bind_ret_l.
      apply for_each_no_assertion. apply pool_step_no_assertion.
    + intros Hk. now rewrite pooling_layer_run.
Qed.

Lemma wire_count_preconditions_witness :
  convolutional_layer (repeat 0%Q 15) [0; 1] true = (Raise (AssertionError too_small), [])
  /\ pooling_layer (repeat 0%Q 3) [0] = (Raise (AssertionError too_small), [])
  /\ fst (convolutional_layer (repeat 0%Q 15) [0; 1; 2] true) = Ok tt
  /\ fst (pooling_layer (repeat 0%Q 3) [0; 1] ) = Ok tt.
Proof.
  split; [|split;[|split]].
  - apply (wire_count_preconditions (repeat 0%Q 15) (repeat 0%Q 3) [0; 1] true).
    simpl; lia.
  - apply (wire_count_preconditions (repeat 0%Q 15) (repeat 0%Q 3) [0] true).
    simpl; lia.
  - apply (wire_count_preconditions (repeat 0%Q 15) (repeat 0%Q 3) [0; 1; 2] true).
    + simpl; lia.
    + reflexivity.
  - apply (wire_count_preconditions (repeat 0%Q 15) (repeat 0%Q 3) [0; 1] true).
    + simpl; lia.
    + reflexivity.
Defined.

(** *** The network *)

Lemma for_each_run {A} (l : list A) (body : A -> Tape unit) :
  (forall x, In x l -> fst (body x) = Ok tt) ->
  for_each l body = (Ok tt, flat_map (fun x => snd (body x)) l).
Proof.
  induction l as [|x l IH]; intros H; [reflexivity|].
  cbn [for_each flat_map].
  assert (Hx : fst (body x) = Ok tt) by (apply H; left; reflexivity).
  destruct (body x) as [r ops]. cbn [fst] in Hx. subst r.
  rewrite bind_ok, IH by (intros y Hy; apply H; right; exact Hy).
  reflexivity.
Qed.

Lemma for_each_ok_inv {A} (l : list A) (body : A -> Tape unit) :
  fst (for_each l body) = Ok tt -> forall x, In x l -> fst (body x) = Ok tt.
Proof.
  induction l as [|x l IH]; intros H y Hy; [destruct Hy|].
  cbn [for_each] in H.
  destruct (body x) as [[[]|e] ops] eqn:E; [|discriminate H].
  rewrite bind_ok in H. cbn [fst] in H.
  destruct Hy as [<-|Hy]; [now rewrite E|auto].
Qed.

Lemma bind_ok_inv {A B} (m : Tape A) (f : A -> Tape B) (b : B) :
  fst (bind m f) = Ok b ->
  exists a, fst m = Ok a /\ fst (f a) = Ok b /\ snd (bind m f) = snd m ++ snd (f a).
Proof.
  destruct m as [[a|e] ops]; [|discriminate].
  rewrite bind_ok. cbn [fst snd]. intros H. exists a. auto.
Qed.

Lemma conv_net_rounds_eq (weights : tensor) (m k : nat) :
  k + m <= shape1 weights ->
  conv_net_rounds weights (seq k m) (active_wires k)
  = (for_each (seq k m) (round weights) ;; ret (active_wires (k + m))).
Proof.
  revert k. induction m as [|m IH]; intros k Hk.
  - cbn [seq conv_net_rounds for_each]. rewrite bind_ret_l, Nat.add_0_r. reflexivity.
  - cbn [seq conv_net_rounds for_each].
    unfold column. rewrite (getitem_nth weights k []) by (unfold shape1 in Hk; lia).
    rewrite bind_ret_l.
    change (stride2 (active_wires k)) with (active_wires (S k)).
    rewrite IH by lia. replace (S k + m) with (k + S m) by lia.
    unfold conv_and_pooling, round, slice, slice_from.
    rewrite Nat.sub_0_r. cbn [skipn].
    now rewrite !bind_assoc.
Qed.

(** [conv_net] is the state machine of the specification. *)
Lemma conv_net_eq (weights : tensor) (last_layer_weights features : list Q) :
  conv_net weights last_layer_weights features
  = conv_net_described weights last_layer_weights features.
Proof.
  unfold conv_net, conv_net_described.
  change (seq 0 num_wires) with (active_wires 0) at 2.
  rewrite conv_net_rounds_eq by lia.
  rewrite bind_assoc, bind_ret_l. reflexivity.
Qed.

Lemma no_dense_bind {A B} (m : Tape A) (f : A -> Tape B) :
  no_dense m -> (forall a, no_dense (f a)) -> no_dense (bind m f).
Proof.
  unfold no_dense. intros Hm Hf. destruct m as [[a|e] ops]; [|exact Hm].
  rewrite bind_ok. cbn [snd] in *. now rewrite existsb_app, Hm, Hf.
Qed.

Lemma no_dense_for_each {A} (l : list A) (body : A -> Tape unit) :
  (forall x, no_dense (body x)) -> no_dense (for_each l body).
Proof.
  intros H. induction l as [|x l IH]; [reflexivity|].
  cbn [for_each]. apply no_dense_bind; auto.
Qed.

Lemma no_dense_getitem {A} (l : list A) (i : nat) : no_dense (getitem l i).
Proof. unfold getitem. now destruct (nth_error l i). Qed.

Lemma no_dense_call_U3 (args : list Q) (w : wire) : no_dense (call_U3 args w).
Proof. destruct args as [|a [|b [|c [|d args]]]]; reflexivity. Qed.

Lemma no_dense_cond (m : MeasurementValue) (call : Tape unit) : no_dense (cond m call).
Proof.
  unfold no_dense, cond. cbn [snd].
  induction (snd call) as [|op ops IH]; [reflexivity|exact IH].
Qed.

Ltac no_dense :=
  repeat first
    [ reflexivity
    | apply no_dense_getitem
    | apply no_dense_call_U3
    | apply no_dense_cond
    | apply no_dense_bind; [|intros ?] ].

Lemma no_dense_round (weights : tensor) (j : nat) : no_dense (round weights j).
Proof.
  unfold round. apply no_dense_bind; [|intros _].
  - rewrite convolutional_layer_eq. apply no_dense_bind.
    + unfold assert. destruct (3 <=? _); reflexivity.
    + intros _. apply no_dense_for_each. intros p.
      apply no_dense_for_each. intros [indx w]. unfold conv_step.
      destruct (_ && _); [|reflexivity].
      destruct (_ && _); no_dense.
  - rewrite pooling_layer_eq. apply no_dense_bind.
    + unfold assert. destruct (2 <=? _); reflexivity.
    + intros _. apply no_dense_for_each. intros [indx w]. unfold pool_step.
      destruct (_ && _); [|reflexivity].
      no_dense.
Qed.

Lemma no_dense_rounds (weights : tensor) (js : list nat) :
  existsb is_dense (flat_map (fun j => snd (round weights j)) js) = false.
Proof.
  induction js as [|j js IH]; [reflexivity|].
  cbn [flat_map]. rewrite existsb_app, IH, (no_dense_round weights j). reflexivity.
Qed.

Lemma dense_layer_run (weights : list Q) (wires : list wire) :
  length weights = 4 ^ length wires - 1 ->
  dense_layer weights wires = emit (ArbitraryUnitary weights wires).
Proof.
  intros H. unfold dense_layer, call_ArbitraryUnitary.
  now rewrite (proj2 (Nat.eqb_eq _ _) H).
Qed.

Lemma dense_layer_rejects (weights : list Q) (wires : list wire) :
  length weights <> 4 ^ length wires - 1 ->
  dense_layer weights wires = (Raise ValueError, []).
Proof.
  intros H. unfold dense_layer, call_ArbitraryUnitary.
  now rewrite (proj2 (Nat.eqb_neq _ _) H).
Qed.

Lemma conv_net_rounds_ok (weights : tensor) (last_layer_weights features : list Q) :
  (forall j, j < shape1 weights -> fst (round weights j) = Ok tt) ->
  conv_net weights last_layer_weights features
  = (x <- (Ok tt, AmplitudeEmbedding features (seq 0 num_wires) (1 # 2)
                  :: flat_map (fun j => snd (round weights j)) (seq 0 (shape1 weights))) ;;
     assert (length last_layer_weights =? 4 ^ length (active_wires (shape1 weights)) - 1)
       (last_layer_msg (4 ^ length (active_wires (shape1 weights)) - 1)
          (length last_layer_weights)) ;;
     dense_layer last_layer_weights (active_wires (shape1 weights)) ;;
     ret (Probs [0])).
Proof.
  intros H. rewrite conv_net_eq. unfold conv_net_described.
  rewrite for_each_run by (intros j Hj; apply H; apply in_seq in Hj; lia).
  unfold emit. rewrite !bind_ok. reflexivity.
Qed.

(** C3.  [conv_net] is the state machine of the specification: it queues the
    amplitude embedding of the features on the full register with padding
    constant 0.5, then for j = 0 .. L-1 runs the convolutional layer on the
    first 15 entries of column j and the pooling layer on the remaining
    entries, both over the wires active at round j (the register strided by
    two j times), then checks and queues the dense layer on the wires left,
    and returns the probabilities of wire 0.  When the call succeeds its tape
    is the embedding, the operations of the L rounds in order, and the dense
    layer. *)
Theorem conv_net_state_machine (weights : tensor) (last_layer_weights features : list Q) :
  conv_net weights last_layer_weights features
  = conv_net_described weights last_layer_weights features
  /\ (forall m, fst (conv_net weights last_layer_weights features) = Ok m ->
      m = Probs [0]
      /\ snd (conv_net weights last_layer_weights features)
         = AmplitudeEmbedding features (seq 0 num_wires) (1 # 2)
           :: flat_map (fun j => snd (round weights j)) (seq 0 (shape1 weights))
           ++ [ArbitraryUnitary last_layer_weights (active_wires (shape1 weights))]).
Proof.
  split; [apply conv_net_eq|].
  intros m Hm.
  assert (Hr : forall j, j < shape1 weights -> fst (round weights j) = Ok tt).
  { intros j Hj. rewrite conv_net_eq in Hm. unfold conv_net_described, emit in Hm.
    rewrite bind_ok in Hm. cbn [fst] in Hm.
    apply bind_ok_inv in Hm. destruct Hm as ([] & Hfe & _).
    apply (for_each_ok_inv _ _ Hfe). apply in_seq. lia. }
  rewrite (conv_net_rounds_ok _ _ _ Hr) in *.
  rewrite bind_ok in *. cbn [fst snd] in *.
  destruct (length last_layer_weights =? _) eqn:E; [|discriminate Hm].
  rewrite dense_layer_run in * by (apply Nat.eqb_eq; exact E).
  cbn in Hm |- *. split; [congruence|reflexivity].
Qed.

Lemma conv_net_state_machine_witness :
  active_wires 1 = [0; 2; 4] /\ active_wires 2 = [0; 4]
  /\ Probs [0] = Probs [0]
  /\ snd (conv_net zero_weights (repeat 0%Q 15) basis_features)
     = AmplitudeEmbedding basis_features (seq 0 num_wires) (1 # 2)
       :: flat_map (fun j => snd (round zero_weights j)) (seq 0 (shape1 zero_weights))
       ++ [ArbitraryUnitary (repeat 0%Q 15) (active_wires (shape1 zero_weights))].
Proof.
  split; [reflexivity|]. split; [reflexivity|].
  apply (conv_net_state_machine zero_weights (repeat 0%Q 15) basis_features).
  reflexivity.
Defined.

(** C2, as the code has it.  When the rounds succeed and the final-layer
    vector does not have 4^k - 1 entries (k the number of wires left after
    the rounds), [conv_net] raises an assertion error whose message names the
    expected and the given size.  The check runs after the embedding and all
    the convolution and pooling operations have been queued, and before the
    dense layer, whose operation is not queued.  [dense_layer] rejects such a
    vector itself, on any wires: it raises ValueError and queues nothing. *)
Theorem last_layer_size_check (weights : tensor) (last_layer_weights features : list Q) :
  let L := shape1 weights in
  let k := length (active_wires L) in
  (forall j, j < L -> fst (round weights j) = Ok tt) ->
  length last_layer_weights <> 4 ^ k - 1 ->
  conv_net weights last_layer_weights features
  = (Raise (AssertionError (last_layer_msg (4 ^ k - 1) (length last_layer_weights))),
     AmplitudeEmbedding features (seq 0 num_wires) (1 # 2)
       :: flat_map (fun j => snd (round weights j)) (seq 0 L))
  /\ no_dense (conv_net weights last_layer_weights features)
  /\ (forall w wires, length w <> 4 ^ length wires - 1 ->
        dense_layer w wires = (Raise ValueError, [])).
Proof.
  intros L k Hr Hsize.
  assert (E : conv_net weights last_layer_weights features
    = (Raise (AssertionError (last_layer_msg (4 ^ k - 1) (length last_layer_weights))),
       AmplitudeEmbedding features (seq 0 num_wires) (1 # 2)
         :: flat_map (fun j => snd (round weights j)) (seq 0 L))).
  { rewrite (conv_net_rounds_ok _ _ _ Hr). fold L k.
    replace (length last_layer_weights =? 4 ^ k - 1) with false
      by (symmetry; apply Nat.eqb_neq; exact Hsize).
    rewrite bind_ok. cbn. rewrite app_nil_r. reflexivity. }
  split; [exact E|]. split; [|exact dense_layer_rejects].
  unfold no_dense. rewrite E. cbn [snd existsb is_dense orb].
  apply no_dense_rounds.
Qed.

Lemma last_layer_size_check_witness :
  conv_net zero_weights [] basis_features
  = (Raise (AssertionError (last_layer_msg 15 0)),
     AmplitudeEmbedding basis_features (seq 0 num_wires) (1 # 2)
       :: flat_map (fun j => snd (round zero_weights j)) (seq 0 2))
  /\ dense_layer [] [0; 4] = (Raise ValueError, []).
Proof.
  destruct (last_layer_size_check zero_weights [] basis_features) as (H1 & _ & H3).
  - intros j Hj. unfold shape1, zero_weights in Hj. cbn [length] in Hj.
    destruct j as [|[|j]]; [reflexivity|reflexivity|lia].
  - vm_compute. discriminate.
  - split; [exact H1|]. apply H3. vm_compute. discriminate.
Defined.

(** C2 as stated fails: with a final-layer vector of the wrong size (0
    entries instead of 15) the assertion fires only after the embedding and
    the gates of both rounds have been queued. *)
Lemma size_mismatch_found_after_gates :
  let r := conv_net zero_weights [] basis_features in
  length (@nil Q) <> 4 ^ length (active_wires (shape1 zero_weights)) - 1
  /\ fst r = Raise (AssertionError (last_layer_msg 15 0))
  /\ snd r <> []
  /\ hd_error (snd r) = Some (AmplitudeEmbedding basis_features [0; 1; 2; 3; 4; 5] (1 # 2))
  /\ In (IsingXX 0 0 1) (snd r).
Proof.
  cbv zeta. split; [vm_compute; discriminate|].
  split; [reflexivity|]. split; [vm_compute; discriminate|].
  split; [reflexivity|]. vm_compute. tauto.
Qed.

(** *** Numbers and reductions *)

Lemma Qltb_lt (x y : Q) : Qltb x y = true <-> (x < y)%Q.
Proof.
  unfold Qltb. rewrite negb_true_iff. split.
  - intros H. apply Qnot_le_lt. intros Hle. apply Qle_bool_iff in Hle. congruence.
  - intros H. destruct (Qle_bool y x) eqn:E; [|reflexivity].
    apply Qle_bool_iff in E. exfalso. exact (Qlt_not_le _ _ H E).
Qed.

(** The comparison of finite float32 numbers is the strict order of the
    numbers they denote: 0.5 itself is not above 0.5. *)
Lemma lt32_Finite (a b : Q) : lt32 (Finite a) (Finite b) <-> (a < b)%Q.
Proof. apply Qltb_lt. Qed.




(** *** Rounding to float32 *)

Local Open Scope Q_scope.

Lemma two_neq_0 : ~ 2 == 0.
Proof. discriminate. Qed.

Lemma pow2_pos e : 0 < pow2 e.
Proof. apply Qpower_0_lt. reflexivity. Qed.

Lemma pow2_plus a b : pow2 (a + b) == pow2 a * pow2 b.
Proof. apply Qpower_plus, two_neq_0. Qed.

Lemma pow2_minus a b : pow2 (a - b) == pow2 a / pow2 b.
Proof. apply Qpower_minus, two_neq_0. Qed.

Lemma pow2_le a b : (a <= b)%Z -> pow2 a <= pow2 b.
Proof. intros H. apply Qpower_le_compat_l; [exact H|discriminate]. Qed.

Lemma pow2_lt a b : (a < b)%Z -> pow2 a < pow2 b.
Proof. intros H. apply Qpower_lt_compat_l; [exact H|reflexivity]. Qed.

Lemma pow2_Z a : (0 <= a)%Z -> pow2 a == inject_Z (2 ^ a).
Proof. intros H. unfold pow2. rewrite (Zpower_Qpower 2 a H). reflexivity. Qed.

Lemma inject_Z_lt_mult (n A B d : Z) :
  (0 < n)%Z -> (n < A)%Z -> (0 < B)%Z -> (B <= d)%Z ->
  inject_Z n / inject_Z d < inject_Z A / inject_Z B.
Proof.
  intros Hn HA HB Hd.
  assert (Hd0 : 0 < inject_Z d) by (rewrite <- (Zlt_Qlt 0); lia).
  assert (HB0 : 0 < inject_Z B) by (rewrite <- (Zlt_Qlt 0); lia).
  apply Qlt_shift_div_r; [exact Hd0|].
  unfold Qdiv. rewrite <- Qmult_assoc, (Qmult_comm (/ _)), Qmult_assoc.
  apply Qlt_shift_div_l; [exact HB0|].
  rewrite <- !inject_Z_mult, <- Zlt_Qlt. nia.
Qed.

Lemma inject_Z_le_mult (n A B d : Z) :
  (0 < A)%Z -> (A <= n)%Z -> (0 < d)%Z -> (d <= B)%Z ->
  inject_Z A / inject_Z B <= inject_Z n / inject_Z d.
Proof.
  intros Hn HA HB Hd.
  assert (Hd0 : 0 < inject_Z d) by (rewrite <- (Zlt_Qlt 0); lia).
  assert (HB0 : 0 < inject_Z B) by (rewrite <- (Zlt_Qlt 0); lia).
  apply Qle_shift_div_r; [exact HB0|].
  unfold Qdiv. rewrite <- Qmult_assoc, (Qmult_comm (/ _)), Qmult_assoc.
  apply Qle_shift_div_l; [exact Hd0|].
  rewrite <- !inject_Z_mult, <- Zle_Qle. nia.
Qed.

Lemma mag_spec (x : Q) : 0 < x -> pow2 (mag x - 1) <= x /\ x < pow2 (mag x).
Proof.
  intros Hx. destruct x as [n d]. 
  assert (Hn : (0 < n)%Z).
  { unfold Qlt in Hx. cbn in Hx. lia. }
  pose proof (Z.log2_spec n Hn) as [Ha1 Ha2].
  pose proof (Z.log2_spec (Z.pos d) (Pos2Z.is_pos d)) as [Hb1 Hb2].
  pose proof (Z.log2_nonneg n) as Ha0. pose proof (Z.log2_nonneg (Z.pos d)) as Hb0.
  set (a := Z.log2 n) in *. set (b := Z.log2 (Z.pos d)) in *.
  assert (Pa : (0 < 2 ^ a)%Z) by (apply Z.pow_pos_nonneg; lia).
  assert (Pb : (0 < 2 ^ b)%Z) by (apply Z.pow_pos_nonneg; lia).
  assert (U : n # d < pow2 (a - b + 1)).
  { replace (a - b + 1)%Z with (Z.succ a - b)%Z by lia.
    rewrite pow2_minus, !pow2_Z by lia. rewrite (Qmake_Qdiv n d).
    apply inject_Z_lt_mult; lia. }
  assert (L : pow2 (a - b - 1) <= n # d).
  { replace (a - b - 1)%Z with (a - Z.succ b)%Z by lia.
    rewrite pow2_minus, !pow2_Z by lia. rewrite (Qmake_Qdiv n d).
    apply inject_Z_le_mult; lia. }
  unfold mag. cbn [Qnum Qden]. fold a b.
  destruct (Qle_bool (pow2 (a - b)) (n # d)) eqn:E.
  - apply Qle_bool_iff in E. replace (a - b + 1 - 1)%Z with (a - b)%Z by lia. tauto.
  - split; [exact L|]. apply Qnot_le_lt. intros H. apply Qle_bool_iff in H. congruence.
Qed.

Lemma mag_unique (x : Q) (e : Z) : pow2 (e - 1) <= x -> x < pow2 e -> 0 < x -> mag x = e.
Proof.
  intros H1 H2 Hx. destruct (mag_spec x Hx) as [M1 M2].
  destruct (Z.lt_trichotomy (mag x) e) as [Hlt|[Heq|Hgt]]; [|exact Heq|].
  - exfalso. assert (pow2 (mag x) <= pow2 (e - 1)) by (apply pow2_le; lia). lra.
  - exfalso. assert (pow2 e <= pow2 (mag x - 1)) by (apply pow2_le; lia). lra.
Qed.

Lemma mag_le (x y : Q) : 0 < x -> x <= y -> (mag x <= mag y)%Z.
Proof.
  intros Hx Hxy. destruct (mag_spec x Hx) as [M1 M2].
  destruct (mag_spec y) as [N1 N2]; [lra|].
  destruct (Z_le_gt_dec (mag x) (mag y)) as [H|H]; [exact H|].
  exfalso. assert (pow2 (mag y) <= pow2 (mag x - 1)) by (apply pow2_le; lia). lra.
Qed.

Lemma rne_bounds (m : Q) : (Qfloor m <= rne m <= Qfloor m + 1)%Z.
Proof. unfold rne. destruct (Qcompare _ _); [destruct (Z.even _)| |]; lia. Qed.

Lemma rne_Z (k : Z) : rne (inject_Z k) = k.
Proof.
  unfold rne. rewrite Qfloor_Z.
  assert (E : Qcompare (inject_Z k - inject_Z k) (1 # 2) = Lt).
  { apply Qlt_alt. setoid_replace (inject_Z k - inject_Z k) with 0 by ring. reflexivity. }
  now rewrite E.
Qed.

Lemma rne_le (a b : Q) : a <= b -> (rne a <= rne b)%Z.
Proof.
  intros Hab. pose proof (Qfloor_resp_le a b Hab) as Hf.
  pose proof (rne_bounds a) as Ba. pose proof (rne_bounds b) as Bb.
  destruct (Z.eq_dec (Qfloor a) (Qfloor b)) as [E|E]; [|lia].
  unfold rne in *. rewrite <- E in *.
  remember (inject_Z (Qfloor a)) as fa eqn:Hfa. clear Hfa.
  destruct (Qcompare (a - fa) (1 # 2)) eqn:Ca;
    destruct (Qcompare (b - fa) (1 # 2)) eqn:Cb;
    try (destruct (Z.even (Qfloor a))); try lia; exfalso;
    repeat match goal with
    | H : Qcompare _ _ = Eq |- _ => apply Qeq_alt in H
    | H : Qcompare _ _ = Lt |- _ => apply Qlt_alt in H
    | H : Qcompare _ _ = Gt |- _ => apply Qgt_alt in H
    end; lra.
Qed.

Lemma rne_comp (a b : Q) : a == b -> rne a = rne b.
Proof. intros H. apply Z.le_antisymm; apply rne_le; lra. Qed.

Lemma scaled_le (x y : Q) (c : Z) : x <= y -> x / pow2 c <= y / pow2 c.
Proof.
  intros H. unfold Qdiv. apply Qmult_le_compat_r; [exact H|].
  apply Qlt_le_weak, Qinv_lt_0_compat, pow2_pos.
Qed.

Lemma pow2_ratio (a c : Z) : (c <= a)%Z -> pow2 a / pow2 c == inject_Z (2 ^ (a - c)).
Proof. intros H. rewrite <- pow2_minus, pow2_Z by lia. reflexivity. Qed.

Lemma pow2_unscale (a c : Z) : (c <= a)%Z -> inject_Z (2 ^ (a - c)) * pow2 c == pow2 a.
Proof.
  intros H. rewrite <- pow2_Z by lia. rewrite <- pow2_plus.
  replace (a - c + c)%Z with a by lia. reflexivity.
Qed.

Lemma rndQ_nonneg (x : Q) : 0 < x -> 0 <= rndQ x.
Proof.
  intros Hx. unfold rndQ. apply Qmult_le_0_compat; [|apply Qlt_le_weak, pow2_pos].
  change 0 with (inject_Z 0). rewrite <- Zle_Qle.
  rewrite <- (rne_Z 0). apply rne_le. change (inject_Z 0) with 0.
  apply Qle_shift_div_l; [apply pow2_pos|]. lra.
Qed.

Lemma rndQ_le (x y : Q) : 0 < x -> x <= y -> rndQ x <= rndQ y.
Proof.
  intros Hx Hxy. assert (Hy : 0 < y) by lra.
  pose proof (mag_le x y Hx Hxy) as Hm.
  destruct (mag_spec x Hx) as [X1 X2]. destruct (mag_spec y Hy) as [Y1 Y2].
  unfold rndQ. destruct (Z.eq_dec (cexp x) (cexp y)) as [E|E].
  - rewrite E. apply Qmult_le_compat_r; [|apply Qlt_le_weak, pow2_pos].
    rewrite <- Zle_Qle. apply rne_le, scaled_le, Hxy.
  - assert (Hc : (cexp x < cexp y)%Z) by (unfold cexp in *; lia).
    assert (Ecy : cexp y = (mag y - 24)%Z) by (unfold cexp in *; lia).
    assert (Hmag : (mag x <= mag y - 1)%Z) by (unfold cexp in *; lia).
    set (cx := cexp x) in *. set (cy := cexp y) in *.
    apply Qle_trans with (pow2 (mag y - 1)).
    + rewrite <- (pow2_unscale (mag y - 1) cx) by lia.
      apply Qmult_le_compat_r; [|apply Qlt_le_weak, pow2_pos].
      rewrite <- Zle_Qle. rewrite <- (rne_Z (2 ^ (mag y - 1 - cx))).
      apply rne_le. rewrite <- pow2_ratio by lia. apply scaled_le.
      apply Qle_trans with (pow2 (mag x)); [lra|apply pow2_le; lia].
    + rewrite <- (pow2_unscale (mag y - 1) cy) by lia.
      apply Qmult_le_compat_r; [|apply Qlt_le_weak, pow2_pos].
      rewrite <- Zle_Qle. rewrite <- (rne_Z (2 ^ (mag y - 1 - cy))) at 1.
      apply rne_le. rewrite <- pow2_ratio by lia. apply scaled_le. exact Y1.
Qed.

Lemma rndQ_comp (x y : Q) : 0 < x -> x == y -> rndQ x == rndQ y.
Proof. intros Hx H. apply Qle_antisym; apply rndQ_le; lra. Qed.

















(** The rounded number is within half a unit of the last digit kept. *)
Lemma rne_near (m : Q) : - (1 # 2) <= inject_Z (rne m) - m /\ inject_Z (rne m) - m <= 1 # 2.
Proof.
  unfold rne. pose proof (Qfloor_le m) as Hl. pose proof (Qlt_floor m) as Hu.
  rewrite inject_Z_plus in Hu. change (inject_Z 1) with 1 in Hu.
  remember (inject_Z (Qfloor m)) as f eqn:Ef.
  destruct (Qcompare (m - f) (1 # 2)) eqn:C.
  - apply Qeq_alt in C. destruct (Z.even (Qfloor m)).
    + rewrite <- Ef. split; lra.
    + rewrite inject_Z_plus, <- Ef. change (inject_Z 1) with 1. split; lra.
  - apply Qlt_alt in C. rewrite <- Ef. split; lra.
  - apply Qgt_alt in C. rewrite inject_Z_plus, <- Ef. change (inject_Z 1) with 1.
    split; lra.
Qed.

Lemma rndQ_near (x : Q) :
  - (pow2 (cexp x) * (1 # 2)) <= rndQ x - x /\ rndQ x - x <= pow2 (cexp x) * (1 # 2).
Proof.
  unfold rndQ. pose proof (pow2_pos (cexp x)) as Hp.
  destruct (rne_near (x / pow2 (cexp x))) as [Hl Hu].
  set (p := pow2 (cexp x)) in *. set (k := inject_Z (rne (x / p))) in *.
  assert (E : x == x / p * p) by (field; lra).
  assert (Hl' : - (1 # 2) * p <= (k - x / p) * p)
    by (apply Qmult_le_compat_r; lra).
  assert (Hu' : (k - x / p) * p <= (1 # 2) * p)
    by (apply Qmult_le_compat_r; lra).
  set (y := x / p) in *. clearbody y k. split.
  - setoid_replace (k * p - x) with ((k - y) * p) by (rewrite E at 1; ring). lra.
  - setoid_replace (k * p - x) with ((k - y) * p) by (rewrite E at 1; ring). lra.
Qed.

(** A number m * 2^c with at most 24 digits and c >= -149 is kept as it is. *)
Lemma rndQ_fixed (m c : Z) :
  (1 <= m <= 2 ^ 24)%Z -> (-149 <= c)%Z ->
  rndQ (inject_Z m * pow2 c) == inject_Z m * pow2 c.
Proof.
  intros Hm Hc. set (r := inject_Z m * pow2 c).
  assert (Hm0 : 0 < inject_Z m) by (rewrite <- (Zlt_Qlt 0); lia).
  pose proof (pow2_pos c) as Hpc.
  assert (Hr : 0 < r) by (unfold r; apply Qmult_lt_0_compat; assumption).
  destruct (Z.eq_dec m (2 ^ 24)) as [E|E].
  - assert (Er : r == pow2 (c + 24)).
    { unfold r. rewrite E, <- pow2_Z by lia. rewrite <- pow2_plus.
      now replace (24 + c)%Z with (c + 24)%Z by lia. }
    assert (Hmag : mag r = (c + 25)%Z).
    { apply mag_unique; [| |exact Hr].
      - rewrite Er. apply pow2_le. lia.
      - rewrite Er. apply pow2_lt. lia. }
    unfold rndQ, cexp. rewrite Hmag, Z.max_l by lia.
    replace (c + 25 - 24)%Z with (c + 1)%Z by lia.
    assert (Eq : r / pow2 (c + 1) == inject_Z (2 ^ 23)).
    { rewrite Er, pow2_ratio by lia. now replace (c + 24 - (c + 1))%Z with 23%Z by lia. }
    rewrite (rne_comp _ _ Eq), rne_Z.
    replace 23%Z with (c + 24 - (c + 1))%Z at 1 by lia.
    rewrite pow2_unscale by lia. symmetry. exact Er.
  - assert (Hlt : r < pow2 (c + 24)).
    { unfold r. rewrite pow2_plus, (Qmult_comm (pow2 c)).
      apply Qmult_lt_compat_r; [exact Hpc|].
      rewrite pow2_Z by lia. rewrite <- Zlt_Qlt. lia. }
    destruct (mag_spec r Hr) as [M1 M2].
    assert (Hmag : (mag r <= c + 24)%Z).
    { destruct (Z_le_gt_dec (mag r) (c + 24)) as [H|H]; [exact H|]. exfalso.
      assert (pow2 (c + 24) <= pow2 (mag r - 1)) by (apply pow2_le; lia). lra. }
    unfold rndQ. set (e := cexp r).
    assert (He : (e <= c)%Z) by (unfold e, cexp; lia).
    assert (Eq : r / pow2 e == inject_Z (m * 2 ^ (c - e))).
    { unfold r. rewrite inject_Z_mult, <- pow2_ratio by lia. unfold Qdiv. ring. }
    rewrite (rne_comp _ _ Eq), rne_Z, inject_Z_mult.
    rewrite <- Qmult_assoc, pow2_unscale by lia. reflexivity.
Qed.

Lemma rndQ_digits (x : Q) : 0 < x -> (0 <= rne (x / pow2 (cexp x)) <= 2 ^ 24)%Z.
Proof.
  intros Hx. destruct (mag_spec x Hx) as [M1 M2]. pose proof (pow2_pos (cexp x)) as Hp.
  split.
  - rewrite <- (rne_Z 0). apply rne_le. change (inject_Z 0) with 0.
    apply Qle_shift_div_l; [exact Hp|]. lra.
  - rewrite <- (rne_Z (2 ^ 24)). apply rne_le.
    apply Qle_shift_div_r; [exact Hp|].
    rewrite <- pow2_Z, <- pow2_plus by lia.
    apply Qle_trans with (pow2 (mag x)); [lra|]. apply pow2_le. unfold cexp. lia.
Qed.

Lemma rndQ_idem (x : Q) : 0 < x -> 0 < rndQ x -> rndQ (rndQ x) == rndQ x.
Proof.
  intros Hx Hr. pose proof (rndQ_digits x Hx) as Hd. unfold rndQ at 2 3.
  unfold rndQ in Hr.
  apply rndQ_fixed; [|unfold cexp; lia].
  destruct (Z.eq_dec (rne (x / pow2 (cexp x))) 0) as [E|E]; [|lia].
  rewrite E in Hr. exfalso. change (inject_Z 0) with 0 in Hr. lra.
Qed.

Lemma round_pos_idem (x r : Q) (s : bool) :
  0 < x -> round_pos x s = Finite r -> round32 r = Finite r.
Proof.
  intros Hx. unfold round_pos.
  destruct (Qle_bool (pow2 128) (rndQ x)) eqn:O; [discriminate|].
  intros H. assert (Er : r = Qred (if s then - rndQ x else rndQ x)) by congruence.
  clear H.
  assert (Ho : rndQ x < pow2 128).
  { apply Qnot_le_lt. intros H. apply Qle_bool_iff in H. congruence. }
  pose proof (rndQ_nonneg x Hx) as H0.
  assert (Hr : r == (if s then - rndQ x else rndQ x)) by (rewrite Er; apply Qred_correct).
  unfold round32. replace (Qred r) with r by (rewrite Er; symmetry; apply Qred_complete, Qred_correct).
  destruct (Qcompare r 0) eqn:C.
  - apply Qeq_alt in C. f_equal. rewrite Er.
    transitivity (Qred 0); [reflexivity|]. apply Qred_complete.
    rewrite <- Hr. symmetry. exact C.
  - apply Qlt_alt in C. destruct s; [|lra].
    assert (Hp : 0 < rndQ x) by lra.
    assert (E : rndQ (- r) == rndQ x).
    { rewrite (rndQ_comp (- r) (rndQ x)) by lra. apply rndQ_idem; assumption. }
    unfold round_pos.
    destruct (Qle_bool (pow2 128) (rndQ (- r))) eqn:O'.
    + apply Qle_bool_iff in O'. lra.
    + f_equal. transitivity (Qred (- rndQ x)); [|symmetry; exact Er].
      apply Qred_complete. rewrite E. reflexivity.
  - apply Qgt_alt in C. destruct s; [lra|].
    assert (Hp : 0 < rndQ x) by lra.
    assert (E : rndQ r == rndQ x).
    { rewrite (rndQ_comp r (rndQ x)) by lra. apply rndQ_idem; assumption. }
    unfold round_pos.
    destruct (Qle_bool (pow2 128) (rndQ r)) eqn:O'.
    + apply Qle_bool_iff in O'. lra.
    + f_equal. transitivity (Qred (rndQ x)); [|symmetry; exact Er].
      apply Qred_complete. exact E.
Qed.

(** Rounding returns float32 numbers: a number that is the result of a
    rounding is left as it is by rounding. *)
Lemma round32_idem (x r : Q) : round32 x = Finite r -> round32 r = Finite r.
Proof.
  unfold round32 at 1. destruct (Qcompare (Qred x) 0) eqn:C.
  - intros H. assert (r = 0) by congruence. subst r. reflexivity.
  - apply Qlt_alt in C. apply round_pos_idem. lra.
  - apply Qgt_alt in C. apply round_pos_idem. exact C.
Qed.

Lemma round32_is_float32 (x : Q) : is_float32 (round32 x).
Proof.
  unfold is_float32. destruct (round32 x) as [r| |] eqn:E; [|exact I|exact I].
  exact (round32_idem x r E).
Qed.

(** The operations return float32 numbers, whatever they are given. *)
Lemma operations_return_float32 (x y : float32) :
  is_float32 (add32 x y) /\ is_float32 (sub32 x y) /\ is_float32 (div32 x y)
  /\ forall z, is_float32 (of_Z32 z).
Proof.
  split; [|split; [|split]].
  - destruct x, y; cbn [add32]; try exact I; [apply round32_is_float32|].
    now destruct (Bool.eqb _ _).
  - unfold sub32. destruct x, y; cbn [neg32 add32]; try exact I;
      [apply round32_is_float32|]. now destruct (Bool.eqb _ _).
  - destruct x, y; cbn [div32]; try exact I; [|reflexivity].
    destruct (Qeq_bool _ _); [destruct (Qeq_bool _ _); exact I|].
    apply round32_is_float32.
  - intros z. apply round32_is_float32.
Qed.

(** Rounding on examples: one tenth; integers above 2^24, where a tie goes
    to the even neighbour; the largest float32 and the overflow threshold;
    the smallest positive float32 and half of it. *)
Lemma round32_examples :
  round32 (1 # 10) = Finite (13421773 # 134217728)
  /\ round32 16777217 = Finite 16777216
  /\ round32 16777219 = Finite 16777220
  /\ round32 (pow2 128 - pow2 104) = Finite (Qred (pow2 128 - pow2 104))
  /\ round32 (pow2 128 - pow2 103) = Infinity false
  /\ round32 (pow2 (-149)) = Finite (Qred (pow2 (-149)))
  /\ round32 (pow2 (-150)) = Finite 0.
Proof. vm_compute. repeat split. Qed.



Local Close Scope Q_scope.

Lemma vmap_ok {A B} (f : A -> result B) (g : A -> B) (l : list A) :
  (forall x, In x l -> f x = Ok (g x)) -> vmap f l = Ok (map g l).
Proof.
  induction l as [|x l IH]; intros H; [reflexivity|].
  cbn [vmap map]. rewrite (H x) by (left; reflexivity).
  rewrite IH by (intros y Hy; apply H; right; exact Hy). reflexivity.
Qed.

Lemma vmap_raise {A B} (f : A -> result B) (e : exn) (l : list A) :
  (forall x, In x l -> f x = Raise e) -> l <> [] -> vmap f l = Raise e.
Proof.
  intros H Hl. destruct l as [|x l]; [contradiction|].
  cbn [vmap]. rewrite (H x) by (left; reflexivity). reflexivity.
Qed.

(** Whether the tape builds does not depend on the features. *)
Lemma conv_net_outcome_features (weights : tensor) (wl f f' : list Q) :
  fst (conv_net weights wl f) = fst (conv_net weights wl f').
Proof.
  unfold conv_net, emit. rewrite !bind_ok. reflexivity.
Qed.

Lemma conv_net_returns (weights : tensor) (wl f : list Q) (m : MeasurementProcess) :
  fst (conv_net weights wl f) = Ok m -> m = Probs [0].
Proof.
  unfold conv_net, emit. rewrite bind_ok. cbn [fst]. intros H.
  apply bind_ok_inv in H. destruct H as (wires & _ & H & _).
  apply bind_ok_inv in H. destruct H as ([] & _ & H & _).
  apply bind_ok_inv in H. destruct H as ([] & _ & H & _).
  cbn in H. congruence.
Qed.

Section Evaluation.
Context {sim : Simulator}.

Lemma conv_net_qnode_valid weights wl f :
  circuit_builds weights wl ->
  conv_net_qnode weights wl f = Ok (execute (snd (conv_net weights wl f)) (Probs [0])).
Proof.
  unfold circuit_builds, conv_net_qnode. intros H.
  rewrite (conv_net_outcome_features weights wl [] f) in H.
  destruct (conv_net weights wl f) as [r tape]. cbn [fst snd] in *. now subst r.
Qed.

Lemma conv_net_qnode_invalid weights wl f e :
  fst (conv_net weights wl []) = Raise e ->
  conv_net_qnode weights wl f = Raise e.
Proof.
  unfold conv_net_qnode. intros H.
  rewrite (conv_net_outcome_features weights wl [] f) in H.
  destruct (conv_net weights wl f) as [r tape]. cbn [fst] in H. now subst r.
Qed.

Lemma compute_out_valid weights wl features labels :
  circuit_builds weights wl -> length features = length labels ->
  compute_out weights wl features labels
  = Ok (map (assigned_probability weights wl) (combine features labels)).
Proof.
  intros Hv Hlen. unfold compute_out. rewrite Hlen, Nat.eqb_refl.
  apply vmap_ok. intros [feature label] _.
  rewrite (conv_net_qnode_valid _ _ _ Hv). reflexivity.
Qed.

Lemma compute_out_invalid weights wl features labels e :
  fst (conv_net weights wl []) = Raise e ->
  length features = length labels -> features <> [] ->
  compute_out weights wl features labels = Raise e.
Proof.
  intros Hv Hlen Hne. unfold compute_out. rewrite Hlen, Nat.eqb_refl.
  apply vmap_raise.
  - intros [feature label] _. now rewrite (conv_net_qnode_invalid _ _ _ _ Hv).
  - destruct features, labels; try discriminate; congruence.
Qed.


End Evaluation.

Section Reordering.
Context {sim : Simulator}.



End Reordering.

Lemma zero_weights_build : circuit_builds zero_weights toy_weights_last.
Proof. reflexivity. Qed.










(** *** Whether a tape builds depends on the shapes of the weights only *)

Lemma same_outcome_refl {A} (t : Tape A) : same_outcome t t.
Proof. unfold same_outcome. now destruct (fst t). Qed.

Lemma same_outcome_bind {A A' B B'} (m : Tape A) (m' : Tape A')
    (f : A -> Tape B) (f' : A' -> Tape B') :
  same_outcome m m' ->
  (forall a a', same_outcome (f a) (f' a')) ->
  same_outcome (bind m f) (bind m' f').
Proof.
  intros Hm Hf. destruct m as [[a|e] ops], m' as [[a'|e'] ops'];
    try contradiction; [|exact Hm].
  rewrite !bind_ok. exact (Hf a a').
Qed.

Lemma same_outcome_for_each {A} (l : list A) (body body' : A -> Tape unit) :
  (forall x, same_outcome (body x) (body' x)) ->
  same_outcome (for_each l body) (for_each l body').
Proof.
  intros H. induction l as [|x l IH]; [exact I|].
  cbn [for_each]. apply same_outcome_bind; auto.
Qed.

Lemma same_outcome_getitem {A} (l l' : list A) (i : nat) :
  length l = length l' -> same_outcome (getitem l i) (getitem l' i).
Proof.
  intros H. unfold getitem.
  destruct (nth_error l i) eqn:E, (nth_error l' i) eqn:E'; try exact I; try reflexivity.
  - apply nth_error_None in E'. assert (nth_error l i <> None) as Hs by congruence.
    apply nth_error_Some in Hs. lia.
  - apply nth_error_None in E. assert (nth_error l' i <> None) as Hs by congruence.
    apply nth_error_Some in Hs. lia.
Qed.

Lemma same_outcome_call_U3 (args args' : list Q) (w w' : wire) :
  length args = length args' -> same_outcome (call_U3 args w) (call_U3 args' w').
Proof.
  intros H.
  destruct args as [|a [|b [|c [|d args]]]], args' as [|a' [|b' [|c' [|d' args']]]];
    try discriminate; try exact I; reflexivity.
Qed.

Lemma slice_length {A} (a b : nat) (l l' : list A) :
  length l = length l' -> length (slice a b l) = length (slice a b l').
Proof. intros H. unfold slice. now rewrite !length_firstn, !length_skipn, H. Qed.

Lemma slice_from_length {A} (a : nat) (l l' : list A) :
  length l = length l' -> length (slice_from a l) = length (slice_from a l').
Proof. intros H. unfold slice_from. now rewrite !length_skipn, H. Qed.

Ltac same_outcome :=
  repeat first
    [ exact I
    | apply same_outcome_refl
    | apply same_outcome_getitem; assumption
    | apply same_outcome_call_U3;
        first [ assumption | apply slice_length; assumption
              | apply slice_from_length; assumption ]
    | apply same_outcome_bind; [|intros ? ?] ].

Lemma same_outcome_conv_step ws ws' wires skip p x :
  length ws = length ws' ->
  same_outcome (conv_step ws wires skip p x) (conv_step ws' wires skip p x).
Proof.
  intros H. destruct x as [indx w]. unfold conv_step.
  destruct (_ && _); [|exact I].
  destruct (_ && _); same_outcome.
Qed.

Lemma same_outcome_pool_step ws ws' wires x :
  length ws = length ws' ->
  same_outcome (pool_step ws wires x) (pool_step ws' wires x).
Proof.
  intros H. destruct x as [indx w]. unfold pool_step.
  destruct (_ && _); [|exact I].
  same_outcome.
Qed.

Lemma same_outcome_round (weights weights' : tensor) (j : nat) :
  map (@length Q) weights = map (@length Q) weights' ->
  same_outcome (round weights j) (round weights' j).
Proof.
  intros H.
  assert (Hj : length (nth j weights []) = length (nth j weights' [])).
  { rewrite <- (map_nth (@length Q) weights [] j), <- (map_nth (@length Q) weights' [] j).
    now rewrite H. }
  unfold round. apply same_outcome_bind.
  - rewrite !convolutional_layer_eq. apply same_outcome_bind; [apply same_outcome_refl|].
    intros _ _. apply same_outcome_for_each. intros p.
    apply same_outcome_for_each. intros x. apply same_outcome_conv_step.
    now rewrite !length_firstn, Hj.
  - intros _ _. rewrite !pooling_layer_eq.
    apply same_outcome_bind; [apply same_outcome_refl|].
    intros _ _. apply same_outcome_for_each. intros x. apply same_outcome_pool_step.
    now rewrite !length_skipn, Hj.
Qed.

Lemma same_outcome_dense_layer (ws ws' : list Q) (wires : list wire) :
  length ws = length ws' ->
  same_outcome (dense_layer ws wires) (dense_layer ws' wires).
Proof.
  intros H. unfold dense_layer, call_ArbitraryUnitary. rewrite <- H.
  destruct (length ws =? _); [exact I|reflexivity].
Qed.

Lemma same_shape_builds (p p' : params) :
  same_shape p p' ->
  circuit_builds (fst p) (snd p) -> circuit_builds (fst p') (snd p').
Proof.
  intros [Hw Hl] Hb.
  assert (HL : shape1 (fst p) = shape1 (fst p')).
  { unfold shape1. apply (f_equal (@length nat)) in Hw. now rewrite !length_map in Hw. }
  assert (Hs : same_outcome (conv_net (fst p) (snd p) []) (conv_net (fst p') (snd p') [])).
  { rewrite !conv_net_eq. unfold conv_net_described. rewrite <- HL, <- Hl.
    apply same_outcome_bind; [exact I|]. intros _ _.
    apply same_outcome_bind.
    - apply same_outcome_for_each. intros j. now apply same_outcome_round.
    - intros _ _. apply same_outcome_bind; [apply same_outcome_refl|].
      intros _ _. apply same_outcome_bind; [|intros _ _; exact I].
      apply same_outcome_dense_layer. exact Hl. }
  unfold circuit_builds in *. unfold same_outcome in Hs. rewrite Hb in Hs.
  destruct (fst (conv_net (fst p') (snd p') [])) as [m|e] eqn:E; [|contradiction].
  f_equal. exact (conv_net_returns _ _ _ _ E).
Qed.

Lemma same_shape_refl (p : params) : same_shape p p.
Proof. split; reflexivity. Qed.

Lemma same_shape_trans (p q r : params) : same_shape p q -> same_shape q r -> same_shape p r.
Proof. intros [H1 H2] [H3 H4]. split; congruence. Qed.

(** *** The training loop *)

Section Training.
Context {sim : Simulator} {opt : Optimizer} {smp : Sampler}.

(** The optimizer returns arrays of the shapes it was given, together with
    the value of the objective at the arguments it was given. *)
Hypothesis optimizer_contract :
  forall st (f : params -> result float32) p c,
    f p = Ok c ->
    exists st' p', step_and_cost st f p = Ok (st', p', c) /\ same_shape p p'.

Variables (x_train : list (list Q)) (y_train : list nat).
Variables (x_test : list (list Q)) (y_test : list nat).
Hypothesis train_aligned : length x_train = length y_train.
Hypothesis test_aligned : length x_test = length y_test.

Lemma init_weights_build : circuit_builds (fst init_weights) (snd init_weights).
Proof. vm_compute. reflexivity. Qed.

Lemma compute_cost_ok weights wl X Y :
  circuit_builds weights wl -> length X = length Y ->
  exists c, compute_cost weights wl X Y = Ok c.
Proof.
  intros Hv Hlen. unfold compute_cost. rewrite (compute_out_valid _ _ _ _ Hv Hlen).
  eexists. reflexivity.
Qed.

Lemma compute_accuracy_ok weights wl X Y :
  circuit_builds weights wl -> length X = length Y ->
  exists a, compute_accuracy weights wl X Y = Ok a.
Proof.
  intros Hv Hlen. unfold compute_accuracy. rewrite (compute_out_valid _ _ _ _ Hv Hlen).
  eexists. reflexivity.
Qed.

Lemma train_loop_snoc (pbar : list nat) (x : nat) (s : loop_state) :
  train_loop x_train y_train x_test y_test (pbar ++ [x]) s
  = (let? s' := train_loop x_train y_train x_test y_test pbar s in
     train_step x_train y_train x_test y_test s').
Proof.
  revert s. induction pbar as [|y pbar IH]; intros s.
  - cbn [app train_loop result_bind].
    destruct (train_step x_train y_train x_test y_test s); reflexivity.
  - cbn [app train_loop].
    destruct (train_step x_train y_train x_test y_test s) as [s'|e]; [|reflexivity].
    cbn [result_bind]. apply IH.
Qed.

Lemma nth_snoc_old {A} (l : list A) (x d : A) (k : nat) :
  k < length l -> nth k (l ++ [x]) d = nth k l d.
Proof. intros H. now rewrite app_nth1. Qed.

Lemma nth_snoc_new {A} (l : list A) (x d : A) : nth (length l) (l ++ [x]) d = x.
Proof. rewrite app_nth2 by lia. now rewrite Nat.sub_diag. Qed.

Lemma train_step_run (n : nat) (s : loop_state) :
  after_epochs x_train y_train x_test y_test n s ->
  exists s', train_step x_train y_train x_test y_test s = Ok s'
             /\ after_epochs x_train y_train x_test y_test (S n) s'.
Proof.
  intros (Htraj & Hshape & L1 & L2 & L3 & L4 & Hrec).
  pose proof (same_shape_builds _ _ Hshape init_weights_build) as Hb.
  destruct (compute_cost_ok _ _ _ _ Hb train_aligned) as [c Hc].
  destruct (optimizer_contract (optimizer s) (objective x_train y_train)
              (weights_var s) c Hc) as (st' & p' & Hstep & Hshape').
  pose proof (same_shape_trans _ _ _ Hshape Hshape') as Hshape''.
  pose proof (same_shape_builds _ _ Hshape'' init_weights_build) as Hb'.
  destruct (compute_accuracy_ok _ _ _ _ Hb' train_aligned) as [a Ha].
  destruct (compute_cost_ok _ _ _ _ Hb' test_aligned) as [c' Hc'].
  destruct (compute_accuracy_ok _ _ _ _ Hb' test_aligned) as [a' Ha'].
  destruct p' as [w' wl']. cbn [fst snd] in *.
  eexists. split.
  - unfold train_step. fold (objective x_train y_train). rewrite Hstep.
    cbn [result_bind]. rewrite Ha. cbn [result_bind]. rewrite Hc'.
    cbn [result_bind]. rewrite Ha'. cbn [result_bind]. reflexivity.
  - unfold after_epochs. cbn [optimizer weights_var train_cost_epochs
      train_acc_epochs test_cost_epochs test_acc_epochs].
    split. { cbn [trajectory]. rewrite Htraj. cbn [result_bind].
             rewrite Hstep. reflexivity. }
    split; [exact Hshape''|].
    rewrite !length_app. cbn [length].
    do 4 (split; [lia|]).
    intros k Hk. destruct (Nat.eq_dec k n) as [->|Hne].
    + assert (E1 : nth n (train_cost_epochs s ++ [c]) zero32 = c)
        by (rewrite <- L1; apply nth_snoc_new).
      assert (E2 : nth n (train_acc_epochs s ++ [a]) zero32 = a)
        by (rewrite <- L2; apply nth_snoc_new).
      assert (E3 : nth n (test_cost_epochs s ++ [c']) zero32 = c')
        by (rewrite <- L3; apply nth_snoc_new).
      assert (E4 : nth n (test_acc_epochs s ++ [a']) zero32 = a')
        by (rewrite <- L4; apply nth_snoc_new).
      rewrite E1, E2, E3, E4.
      exists (optimizer s), (weights_var s), st', (w', wl').
      cbn [fst snd]. repeat split; try assumption.
      cbn [trajectory]. rewrite Htraj. cbn [result_bind]. rewrite Hstep. reflexivity.
    + rewrite !nth_snoc_old by lia. apply Hrec. lia.
Qed.

Lemma train_loop_run (n : nat) :
  exists s, train_loop x_train y_train x_test y_test (seq 0 n) initial_state = Ok s
            /\ after_epochs x_train y_train x_test y_test n s.
Proof.
  induction n as [|n (s & Hs & Hinv)].
  - exists initial_state. split; [reflexivity|].
    unfold after_epochs. cbn. repeat split; try reflexivity. intros k Hk. lia.
  - destruct (train_step_run n s Hinv) as (s' & Hstep & Hinv').
    exists s'. split; [|exact Hinv'].
    rewrite seq_S, train_loop_snoc, Hs. exact Hstep.
Qed.
End Training.

Section TrainQcnn.
Context {sim : Simulator} {opt : Optimizer} {smp : Sampler} {data : Dataset}.

(** The loader returns as many labels as samples. *)
Hypothesis dataset_aligned :
  forall n_train n_test x_train y_train x_test y_test,
    load_digits_data n_train n_test = (x_train, y_train, x_test, y_test) ->
    length x_train = length y_train /\ length x_test = length y_test.

(** The optimizer returns arrays of the shapes it was given, together with
    the value of the objective at the arguments it was given. *)
Hypothesis optimizer_contract :
  forall st (f : params -> result float32) p c,
    f p = Ok c ->
    exists st' p', step_and_cost st f p = Ok (st', p', c) /\ same_shape p p'.

Lemma train_qcnn_run n_train n_test n_epochs desc x_train y_train x_test y_test :
  load_digits_data n_train n_test = (x_train, y_train, x_test, y_test) ->
  exists s,
    after_epochs x_train y_train x_test y_test n_epochs s
    /\ train_qcnn n_train n_test n_epochs desc
       = Ok {| Results.n_train := repeat n_train n_epochs;
               Results.step := seq 1 n_epochs;
               Results.train_cost := train_cost_epochs s;
               Results.train_acc := train_acc_epochs s;
               Results.test_cost := test_cost_epochs s;
               Results.test_acc := test_acc_epochs s |}.
Proof.
  intros Hload.
  destruct (dataset_aligned _ _ _ _ _ _ Hload) as [Htrain Htest].
  destruct (train_loop_run optimizer_contract x_train y_train x_test y_test
              Htrain Htest n_epochs) as (s & Hs & Hinv).
  exists s. split; [exact Hinv|].
  unfold train_qcnn. rewrite Hload.
  unfold initial_state in Hs. rewrite Hs. reflexivity.
Qed.

(** C6.  [train_qcnn] runs exactly [n_epochs] epochs and returns: it makes
    one optimizer step per epoch, against the cost on the training batch,
    each step starting from the weights the previous one returned; it then
    evaluates the training accuracy, the test cost and the test accuracy at
    the updated weights and appends one value to each list.  The returned
    columns all have [n_epochs] entries and the steps are 1 .. n_epochs. *)
Theorem train_qcnn_fixed_epochs n_train n_test n_epochs desc
    x_train y_train x_test y_test :
  load_digits_data n_train n_test = (x_train, y_train, x_test, y_test) ->
  exists r,
    train_qcnn n_train n_test n_epochs desc = Ok r
    /\ Results.step r = seq 1 n_epochs
    /\ Results.n_train r = repeat n_train n_epochs
    /\ length (Results.train_cost r) = n_epochs
    /\ length (Results.train_acc r) = n_epochs
    /\ length (Results.test_cost r) = n_epochs
    /\ length (Results.test_acc r) = n_epochs
    /\ (exists st p, trajectory x_train y_train n_epochs = Ok (st, p))
    /\ forall k, k < n_epochs ->
         exists st p st' p',
           trajectory x_train y_train k = Ok (st, p)
           /\ step_and_cost st (objective x_train y_train) p
              = Ok (st', p', nth k (Results.train_cost r) zero32)
           /\ trajectory x_train y_train (S k) = Ok (st', p')
           /\ compute_accuracy (fst p') (snd p') x_train y_train
              = Ok (nth k (Results.train_acc r) zero32)
           /\ compute_cost (fst p') (snd p') x_test y_test
              = Ok (nth k (Results.test_cost r) zero32)
           /\ compute_accuracy (fst p') (snd p') x_test y_test
              = Ok (nth k (Results.test_acc r) zero32).
Proof.
  intros Hload.
  destruct (train_qcnn_run n_train n_test n_epochs desc _ _ _ _ Hload)
    as (s & (Htraj & _ & L1 & L2 & L3 & L4 & Hrec) & Hrun).
  eexists. split; [exact Hrun|].
  cbn [Results.step Results.n_train Results.train_cost Results.train_acc Results.test_cost Results.test_acc].
  do 6 (split; [first [reflexivity | assumption]|]).
  split; [eauto|].
  intros k Hk. destruct (Hrec k Hk) as (st & p & st' & p' & H1 & H2 & H3 & _ & H5 & H6 & H7).
  exists st, p, st', p'. auto 10.
Qed.

(** C10.  In the record of every epoch the training cost is the cost at the
    weights the epoch started from (the value the optimizer returns for its
    step), while the training accuracy, the test cost and the test accuracy
    are evaluated at the weights the step produced. *)
Theorem train_cost_is_prior_point n_train n_test n_epochs desc
    x_train y_train x_test y_test :
  load_digits_data n_train n_test = (x_train, y_train, x_test, y_test) ->
  exists r,
    train_qcnn n_train n_test n_epochs desc = Ok r
    /\ forall k, k < n_epochs ->
         exists st before st' after,
           trajectory x_train y_train k = Ok (st, before)
           /\ trajectory x_train y_train (S k) = Ok (st', after)
           /\ step_and_cost st (objective x_train y_train) before
              = Ok (st', after, nth k (Results.train_cost r) zero32)
           /\ compute_cost (fst before) (snd before) x_train y_train
              = Ok (nth k (Results.train_cost r) zero32)
           /\ compute_accuracy (fst after) (snd after) x_train y_train
              = Ok (nth k (Results.train_acc r) zero32)
           /\ compute_cost (fst after) (snd after) x_test y_test
              = Ok (nth k (Results.test_cost r) zero32)
           /\ compute_accuracy (fst after) (snd after) x_test y_test
              = Ok (nth k (Results.test_acc r) zero32).
Proof.
  intros Hload.
  destruct (train_qcnn_run n_train n_test n_epochs desc _ _ _ _ Hload)
    as (s & (_ & _ & _ & _ & _ & _ & Hrec) & Hrun).
  eexists. split; [exact Hrun|].
  cbn [Results.train_cost Results.train_acc Results.test_cost Results.test_acc].
  intros k Hk.
  destruct (Hrec k Hk) as (st & p & st' & p' & H1 & H2 & H3 & H4 & H5 & H6 & H7).
  exists st, p, st', p'. auto 10.
Qed.
End TrainQcnn.

Lemma toy_dataset_aligned :
  forall n_train n_test x_train y_train x_test y_test,
    @load_digits_data toy_dataset n_train n_test = (x_train, y_train, x_test, y_test) ->
    length x_train = length y_train /\ length x_test = length y_test.
Proof.
  intros n_train n_test x_train y_train x_test y_test H.
  unfold load_digits_data, toy_dataset in H. injection H as <- <- <- <-.
  now rewrite !repeat_length.
Qed.

Lemma toy_optimizer_contract :
  forall (st : @opt_state toy_optimizer) (f : params -> result float32) p c,
    f p = Ok c ->
    exists st' p', @step_and_cost toy_optimizer st f p = Ok (st', p', c) /\ same_shape p p'.
Proof.
  intros st f p c H. cbn [step_and_cost toy_optimizer]. rewrite H.
  eexists. eexists. split; [reflexivity|].
  split; cbn [fst snd].
  - rewrite map_map. apply map_ext. intros col. now rewrite length_map.
  - now rewrite length_map.
Qed.

Lemma train_qcnn_fixed_epochs_witness :
  exists r,
    @train_qcnn toy_simulator toy_optimizer toy_sampler toy_dataset 2 1 2 "n=20" = Ok r
    /\ Results.step r = [1; 2]
    /\ Results.n_train r = [2; 2]
    /\ length (Results.train_cost r) = 2
    /\ length (Results.train_acc r) = 2
    /\ length (Results.test_cost r) = 2
    /\ length (Results.test_acc r) = 2.
Proof.
  destruct (@train_qcnn_fixed_epochs toy_simulator toy_optimizer toy_sampler toy_dataset
              toy_dataset_aligned toy_optimizer_contract 2 1 2 "n=20"
              _ _ _ _ eq_refl)
    as (r & Hr & Hstep & Hn & L1 & L2 & L3 & L4 & _).
  exists r. repeat split; assumption.
Defined.

Lemma train_cost_is_prior_point_witness :
  exists r,
    @train_qcnn toy_simulator toy_optimizer toy_sampler toy_dataset 2 1 2 "n=20" = Ok r
    /\ Results.train_cost r = [Finite (1 # 4); Finite (1006633 # 4194304)]
    /\ Results.test_cost r = [Finite (1090519 # 4194304); Finite (566231 # 2097152)]
    /\ @compute_cost toy_simulator
         (fst (@init_weights toy_sampler)) (snd (@init_weights toy_sampler))
         (repeat [3 # 4]%Q 2) (repeat 0 2)
       = Ok (nth 0 (Results.train_cost r) zero32).
Proof.
  destruct (@train_cost_is_prior_point toy_simulator toy_optimizer toy_sampler toy_dataset
              toy_dataset_aligned toy_optimizer_contract 2 1 2 "n=20"
              _ _ _ _ eq_refl)
    as (r & Hr & Hrec).
  exists r. split; [exact Hr|].
  destruct (Hrec 0 ltac:(lia)) as (st & before & st' & after & H1 & _ & _ & H4 & _).
  injection H1 as _ <-.
  split; [|split; [|exact H4]].
  - vm_compute in Hr. injection Hr as <-. reflexivity.
  - vm_compute in Hr. injection Hr as <-. reflexivity.
Defined.

(** *** Further properties of the circuit builders *)

Lemma adjacent_pairs_split {A} (l : list A) :
  Permutation (even_pairs l ++ odd_pairs l) (adjacent_pairs l).
Proof.
  induction l as [|x l IH]; [constructor|].
  destruct l as [|y l]; [constructor|].
  unfold odd_pairs, adjacent_pairs in *. cbn [tl combine even_pairs app] in *.
  constructor.
  eapply Permutation_trans; [apply Permutation_app_comm|exact IH].
Qed.

Lemma xx_pairs_app (l l' : list Operation) : xx_pairs (l ++ l') = xx_pairs l ++ xx_pairs l'.
Proof.
  induction l as [|op l IH]; [reflexivity|].
  destruct op; cbn [app xx_pairs]; rewrite ?IH; reflexivity.
Qed.

Lemma yy_pairs_app (l l' : list Operation) : yy_pairs (l ++ l') = yy_pairs l ++ yy_pairs l'.
Proof.
  induction l as [|op l IH]; [reflexivity|].
  destruct op; cbn [app yy_pairs]; rewrite ?IH; reflexivity.
Qed.

Lemma zz_pairs_app (l l' : list Operation) : zz_pairs (l ++ l') = zz_pairs l ++ zz_pairs l'.
Proof.
  induction l as [|op l IH]; [reflexivity|].
  destruct op; cbn [app zz_pairs]; rewrite ?IH; reflexivity.
Qed.

Lemma ising_pairs_blocks (pre : bool) (ws : list Q) (prs : list (wire * wire)) :
  xx_pairs (flat_map (pair_block pre ws) prs) = prs
  /\ yy_pairs (flat_map (pair_block pre ws) prs) = prs
  /\ zz_pairs (flat_map (pair_block pre ws) prs) = prs.
Proof.
  induction prs as [|[w w'] prs (IHx & IHy & IHz)]; [repeat split|].
  cbn [flat_map]. rewrite xx_pairs_app, yy_pairs_app, zz_pairs_app, IHx, IHy, IHz.
  destruct pre; repeat split.
Qed.

Lemma pair_block_length (pre : bool) (ws : list Q) (prs : list (wire * wire)) :
  length (flat_map (pair_block pre ws) prs) = (if pre then 7 else 5) * length prs.
Proof.
  induction prs as [|pr prs IH]; [now destruct pre|].
  cbn [flat_map length]. rewrite length_app, IH. destruct pre; cbn; lia.
Qed.

Lemma odd_pairs_length {A} (l : list A) : length (odd_pairs l) = (length l - 1) / 2.
Proof.
  unfold odd_pairs. rewrite even_pairs_length. destruct l; cbn [tl length].
  - reflexivity.
  - now replace (S (length l) - 1) with (length l) by lia.
Qed.

(** X1.  On a wire list of length n >= 3 with 15 weights, every adjacent
    pair (wires[i], wires[i+1]) gets exactly one IsingXX, one IsingYY and one
    IsingZZ interaction, and no other pair of wires is ever coupled: the
    even-indexed pairs come first, then the odd-indexed ones. *)
Theorem convolutional_layer_couples_adjacent_pairs (weights : list Q) (wires : list wire)
    (skip_first_layer : bool) :
  length weights = 15 -> 3 <= length wires ->
  let ops := snd (convolutional_layer weights wires skip_first_layer) in
  xx_pairs ops = even_pairs wires ++ odd_pairs wires
  /\ yy_pairs ops = xx_pairs ops
  /\ zz_pairs ops = xx_pairs ops
  /\ Permutation (xx_pairs ops) (adjacent_pairs wires)
  /\ length (xx_pairs ops) = length wires - 1.
Proof.
  intros Hw Hn ops. subst ops. rewrite (convolutional_layer_run _ _ _ Hw Hn). cbn [snd].
  rewrite xx_pairs_app, yy_pairs_app, zz_pairs_app.
  destruct (ising_pairs_blocks skip_first_layer weights (even_pairs wires)) as (-> & -> & ->).
  destruct (ising_pairs_blocks false weights (odd_pairs wires)) as (-> & -> & ->).
  repeat split.
  - apply adjacent_pairs_split.
  - rewrite (Permutation_length (adjacent_pairs_split wires)).
    unfold adjacent_pairs. rewrite length_combine.
    destruct wires; cbn [tl length]; lia.
Qed.

Lemma convolutional_layer_couples_adjacent_pairs_witness :
  xx_pairs (snd (convolutional_layer (repeat 0%Q 15) [7; 3; 5; 9] true))
  = [(7, 3); (5, 9); (3, 5)]
  /\ Permutation [(7, 3); (5, 9); (3, 5)] [(7, 3); (3, 5); (5, 9)].
Proof.
  destruct (convolutional_layer_couples_adjacent_pairs (repeat 0%Q 15) [7; 3; 5; 9] true
              eq_refl ltac:(simpl; lia)) as (H1 & _ & _ & H4 & _).
  split; [exact H1|]. rewrite H1 in H4. exact H4.
Defined.

(** X2.  The number of operations [convolutional_layer] queues on n >= 3
    wires: five per adjacent pair, plus two per even-indexed pair when the
    flag is true. *)
Theorem convolutional_layer_gate_count (weights : list Q) (wires : list wire)
    (skip_first_layer : bool) :
  length weights = 15 -> 3 <= length wires ->
  length (snd (convolutional_layer weights wires skip_first_layer))
  = 5 * (length wires - 1) + (if skip_first_layer then 2 * (length wires / 2) else 0).
Proof.
  intros Hw Hn. rewrite (convolutional_layer_run _ _ _ Hw Hn). cbn [snd].
  rewrite length_app, !pair_block_length, even_pairs_length, odd_pairs_length.
  assert (H : length wires / 2 + (length wires - 1) / 2 = length wires - 1).
  { rewrite <- even_pairs_length, <- odd_pairs_length, <- length_app.
    rewrite (Permutation_length (adjacent_pairs_split wires)).
    unfold adjacent_pairs. rewrite length_combine.
    destruct wires; cbn [tl length]; lia. }
  destruct skip_first_layer; lia.
Qed.

Lemma convolutional_layer_gate_count_witness :
  length (snd (convolutional_layer (repeat 0%Q 15) [0; 1; 2; 3; 4; 5] true)) = 31.
Proof.
  exact (convolutional_layer_gate_count (repeat 0%Q 15) [0; 1; 2; 3; 4; 5] true
           eq_refl ltac:(simpl; lia)).
Defined.

(** *** The wires an operation may touch *)

Lemma within_bind {A B} (ws : list wire) (m : Tape A) (f : A -> Tape B) :
  within ws m -> (forall a, fst m = Ok a -> within ws (f a)) -> within ws (bind m f).
Proof.
  unfold within. intros Hm Hf op w Hop Hw.
  destruct m as [[a|e] ops]; [|exact (Hm op w Hop Hw)].
  rewrite bind_ok in Hop. cbn [snd] in *. apply in_app_or in Hop.
  destruct Hop as [Hop|Hop]; [exact (Hm op w Hop Hw)|exact (Hf a eq_refl op w Hop Hw)].
Qed.

Lemma within_for_each {A} (ws : list wire) (l : list A) (body : A -> Tape unit) :
  (forall x, In x l -> within ws (body x)) -> within ws (for_each l body).
Proof.
  induction l as [|x l IH]; intros H.
  - intros op w [].
  - cbn [for_each]. apply within_bind.
    + apply H. left. reflexivity.
    + intros _ _. apply IH. intros y Hy. apply H. right. exact Hy.
Qed.

Lemma within_silent {A} (ws : list wire) (t : Tape A) : snd t = [] -> within ws t.
Proof. intros H op w Hop. rewrite H in Hop. destruct Hop. Qed.

Lemma within_getitem {A} (ws : list wire) (l : list A) (i : nat) : within ws (getitem l i).
Proof. apply within_silent. unfold getitem. now destruct (nth_error l i). Qed.

Lemma within_assert (ws : list wire) (b : bool) (msg : string) : within ws (assert b msg).
Proof. apply within_silent. now destruct b. Qed.

Lemma within_emit (ws : list wire) (op : Operation) :
  (forall w, In w (op_wires op) -> In w ws) -> within ws (emit op).
Proof. intros H op' w [<-|[]] Hw. exact (H w Hw). Qed.

Lemma within_call_U3 (ws : list wire) (args : list Q) (w : wire) :
  In w ws -> within ws (call_U3 args w).
Proof.
  intros H. destruct args as [|a [|b [|c [|d args]]]];
    try (apply within_silent; reflexivity).
  apply within_emit. intros w' [<-|[]]. exact H.
Qed.

Lemma within_cond (ws : list wire) (m : MeasurementValue) (call : Tape unit) :
  within ws call -> within ws (cond m call).
Proof.
  intros H op w Hop Hw. unfold cond in Hop. cbn [snd] in Hop.
  apply in_map_iff in Hop. destruct Hop as (op' & <- & Hop'). exact (H op' w Hop' Hw).
Qed.

Lemma within_dense_layer (ws : list wire) (weights : list Q) (wires : list wire) :
  incl wires ws -> within ws (dense_layer weights wires).
Proof.
  intros H. unfold dense_layer, call_ArbitraryUnitary.
  destruct (_ =? _); [apply within_emit; exact H|apply within_silent; reflexivity].
Qed.

Lemma getitem_In {A} (l : list A) (i : nat) (a : A) : fst (getitem l i) = Ok a -> In a l.
Proof.
  unfold getitem. destruct (nth_error l i) as [x|] eqn:E; [|discriminate].
  cbn. intros [= <-]. exact (nth_error_In _ _ E).
Qed.

Lemma enumerate_In {A} (l : list A) (i : nat) (x : A) : In (i, x) (enumerate l) -> In x l.
Proof. unfold enumerate. apply in_combine_r. Qed.

Lemma pair_In (ws : list wire) (w w' : wire) :
  In w ws -> In w' ws -> forall v, In v [w; w'] -> In v ws.
Proof. intros H H' v [<-|[<-|[]]]; assumption. Qed.

Ltac within_step :=
  first
    [ apply within_getitem
    | apply within_call_U3; assumption
    | apply within_emit; apply pair_In; assumption
    | apply within_silent; reflexivity ].

Lemma within_conv_step weights wires skip p indx w :
  In w wires -> within wires (conv_step weights wires skip p (indx, w)).
Proof.
  intros Hw. unfold conv_step.
  destruct (_ && _); [|apply within_silent; reflexivity].
  apply within_bind.
  { destruct (_ && _); [|apply within_silent; reflexivity].
    apply within_bind; [within_step|intros _ _].
    apply within_bind; [within_step|intros w' Hw'].
    apply getitem_In in Hw'. within_step. }
  intros _ _.
  apply within_bind; [within_step|intros xx _].
  apply within_bind; [within_step|intros w1 H1]. apply getitem_In in H1.
  apply within_bind; [within_step|intros _ _].
  apply within_bind; [within_step|intros yy _].
  apply within_bind; [within_step|intros w2 H2]. apply getitem_In in H2.
  apply within_bind; [within_step|intros _ _].
  apply within_bind; [within_step|intros zz _].
  apply within_bind; [within_step|intros w3 H3]. apply getitem_In in H3.
  apply within_bind; [within_step|intros _ _].
  apply within_bind; [within_step|intros _ _].
  apply within_bind; [within_step|intros w4 H4]. apply getitem_In in H4.
  within_step.
Qed.

Lemma within_convolutional_layer weights wires skip :
  within wires (convolutional_layer weights wires skip).
Proof.
  rewrite convolutional_layer_eq.
  apply within_bind; [apply within_assert|intros _ _].
  apply within_for_each. intros p _.
  apply within_for_each. intros [indx w] Hin.
  apply within_conv_step. exact (enumerate_In _ _ _ Hin).
Qed.

Lemma within_pooling_layer weights wires :
  within wires (pooling_layer weights wires).
Proof.
  rewrite pooling_layer_eq.
  apply within_bind; [apply within_assert|intros _ _].
  apply within_for_each. intros [indx w] Hin. apply enumerate_In in Hin.
  unfold pool_step. destruct (_ && _); [|apply within_silent; reflexivity].
  apply within_bind.
  { intros op v [<-|[]] [<-|[]]. exact Hin. }
  intros m _.
  apply within_bind; [within_step|intros w' Hw']. apply getitem_In in Hw'.
  apply within_cond. within_step.
Qed.

Lemma within_incl {A} (ws ws' : list wire) (t : Tape A) :
  incl ws ws' -> within ws t -> within ws' t.
Proof. intros Hi H op w Hop Hw. apply Hi. exact (H op w Hop Hw). Qed.

Lemma active_wires_incl (j : nat) : incl (active_wires j) (seq 0 num_wires).
Proof.
  induction j as [|j IH]; [apply incl_refl|].
  intros w Hw. apply IH. apply stride2_In. exact Hw.
Qed.

(** X3.  The builders never touch a foreign wire, whatever the weights and
    whether or not they fail: every operation queued by
    [convolutional_layer] or [pooling_layer] acts on wires of the list it was
    given, and every operation queued by [conv_net] acts on the wires
    0 .. 5 of the device. *)
Theorem builders_stay_within_their_wires (weights : list Q) (wires : list wire)
    (skip_first_layer : bool) (tensor_weights : tensor)
    (last_layer_weights features : list Q) :
  within wires (convolutional_layer weights wires skip_first_layer)
  /\ within wires (pooling_layer weights wires)
  /\ within wires (conv_and_pooling weights wires)
  /\ (forall op w,
        In op (snd (conv_net tensor_weights last_layer_weights features)) ->
        In w (op_wires op) -> w < num_wires).
Proof.
  split; [apply within_convolutional_layer|].
  split; [apply within_pooling_layer|].
  split.
  { unfold conv_and_pooling. apply within_bind; [apply within_convolutional_layer|].
    intros _ _. apply within_pooling_layer. }
  assert (H : within (seq 0 num_wires)
                (conv_net tensor_weights last_layer_weights features)).
  { rewrite conv_net_eq. unfold conv_net_described.
    apply within_bind; [apply within_emit; auto|intros _ _].
    apply within_bind.
    { apply within_for_each. intros j _. unfold round.
      apply (within_incl (active_wires j)); [apply active_wires_incl|].
      apply within_bind; [apply within_convolutional_layer|].
      intros _ _. apply within_pooling_layer. }
    intros _ _. apply within_bind; [apply within_assert|intros _ _].
    apply within_bind; [|intros _ _; apply within_silent; reflexivity].
    apply within_dense_layer. apply active_wires_incl. }
  intros op w Hop Hw. apply (H op w Hop) in Hw. apply in_seq in Hw. lia.
Qed.

(** *** Which weights the network builds on *)

Lemma call_U3_ok_length (args : list Q) (w : wire) :
  fst (call_U3 args w) = Ok tt -> length args = 3.
Proof. destruct args as [|a [|b [|c [|d args]]]]; try discriminate; reflexivity. Qed.

Ltac bind_ok_next H :=
  apply bind_ok_inv in H; destruct H as (? & _ & H & _).

Lemma convolutional_layer_ok_length (ws : list Q) (wires : list wire) (skip : bool) :
  3 <= length wires ->
  fst (convolutional_layer ws wires skip) = Ok tt -> length ws = 15.
Proof.
  intros Hn H. rewrite convolutional_layer_eq in H.
  replace (3 <=? length wires) with true in H by (symmetry; apply Nat.leb_le; exact Hn).
  unfold assert in H. rewrite bind_ret_l in H.
  pose proof (for_each_ok_inv _ _ H 0 (or_introl eq_refl)) as H0. cbv beta in H0.
  destruct wires as [|w0 [|w1 [|w2 wires]]]; try (cbn [length] in Hn; lia).
  pose proof (for_each_ok_inv _ _ H0 (0, w0) (or_introl eq_refl)) as Hs.
  unfold conv_step in Hs. cbn [length Nat.modulo Nat.eqb Nat.ltb Nat.leb Nat.sub andb] in Hs.
  change (0 mod 2 =? 0) with true in Hs. cbn [andb] in Hs.
  do 12 bind_ok_next Hs.
  apply call_U3_ok_length in Hs. unfold slice_from in Hs.
  rewrite length_skipn in Hs.
  lia.
Qed.

Lemma pooling_layer_ok_length (ws : list Q) (wires : list wire) :
  2 <= length wires ->
  fst (pooling_layer ws wires) = Ok tt -> length ws = 3.
Proof.
  intros Hn H. rewrite pooling_layer_eq in H.
  replace (2 <=? length wires) with true in H by (symmetry; apply Nat.leb_le; exact Hn).
  unfold assert in H. rewrite bind_ret_l in H.
  destruct wires as [|w0 [|w1 wires]]; try (cbn [length] in Hn; lia).
  pose proof (for_each_ok_inv _ _ H (1, w1) (or_intror (or_introl eq_refl))) as Hs.
  unfold pool_step in Hs. change (1 mod 2 =? 1) with true in Hs.
  cbn [length Nat.ltb Nat.leb andb] in Hs.
  do 2 bind_ok_next Hs. unfold cond in Hs. cbn [fst] in Hs.
  exact (call_U3_ok_length _ _ Hs).
Qed.

Lemma round_ok (weights : tensor) (j : nat) :
  j < 2 -> length (nth j weights []) = 18 -> fst (round weights j) = Ok tt.
Proof.
  intros Hj Hlen. unfold round.
  assert (Hn : 3 <= length (active_wires j)) by (destruct j as [|[|j]]; cbn; lia).
  rewrite convolutional_layer_run by (rewrite ?length_firstn; lia).
  rewrite bind_ok. cbn [fst].
  rewrite pooling_layer_run by (rewrite ?length_skipn; lia).
  reflexivity.
Qed.

Lemma round_ok_length (weights : tensor) (j : nat) :
  j < 2 -> fst (round weights j) = Ok tt -> length (nth j weights []) = 18.
Proof.
  intros Hj H. unfold round in H.
  assert (Hn : 3 <= length (active_wires j)) by (destruct j as [|[|j]]; cbn; lia).
  apply bind_ok_inv in H. destruct H as ([] & Hc & Hp & _).
  apply convolutional_layer_ok_length in Hc; [|exact Hn].
  apply pooling_layer_ok_length in Hp; [|lia].
  rewrite length_firstn in Hc. rewrite length_skipn in Hp. lia.
Qed.

Lemma third_round_fails (weights : tensor) :
  round weights 2 = (Raise (AssertionError too_small), []).
Proof.
  unfold round. rewrite convolutional_layer_small by (cbn; lia). reflexivity.
Qed.

Lemma conv_net_ok_rounds (weights : tensor) (last_layer_weights features : list Q)
    (m : MeasurementProcess) :
  fst (conv_net weights last_layer_weights features) = Ok m ->
  forall j, j < shape1 weights -> fst (round weights j) = Ok tt.
Proof.
  intros H j Hj. rewrite conv_net_eq in H. unfold conv_net_described, emit in H.
  rewrite bind_ok in H. cbn [fst] in H.
  apply bind_ok_inv in H. destruct H as ([] & Hfe & _).
  apply (for_each_ok_inv _ _ Hfe). apply in_seq. lia.
Qed.

Lemma conv_net_ok_layers (weights : tensor) (last_layer_weights features : list Q)
    (m : MeasurementProcess) :
  fst (conv_net weights last_layer_weights features) = Ok m -> shape1 weights <= 2.
Proof.
  intros H. destruct (le_lt_dec (shape1 weights) 2) as [Hle|Hgt]; [exact Hle|].
  pose proof (conv_net_ok_rounds _ _ _ _ H 2 Hgt) as Hr.
  rewrite third_round_fails in Hr. discriminate.
Qed.

(** X4.  The shapes [conv_net] accepts, on its 6 wires.  On a feature
    vector that fits the register, of at most 2^6 = 64 entries, it builds
    exactly when the weight tensor has at most two columns, every column has
    18 entries, and the final-layer vector has 4095, 63 or 15 entries for 0,
    1 or 2 columns. *)
Theorem conv_net_builds_iff (weights : tensor) (last_layer_weights features : list Q) :
  length features <= 2 ^ num_wires ->
  fst (conv_net weights last_layer_weights features) = Ok (Probs [0])
  <-> shape1 weights <= 2
      /\ Forall (fun col => length col = 18) weights
      /\ length last_layer_weights = nth (shape1 weights) [4095; 63; 15] 0.
Proof.
  intros _. split.
  - intros H.
    pose proof (conv_net_ok_rounds _ _ _ _ H) as Hr.
    pose proof (conv_net_ok_layers _ _ _ _ H) as HL.
    rewrite conv_net_eq in H. unfold conv_net_described, emit in H.
    rewrite bind_ok in H. cbn [fst] in H.
    apply bind_ok_inv in H. destruct H as ([] & Hfe & H & _).
    split; [exact HL|]. split.
    + apply Forall_forall. intros col Hcol.
      destruct (In_nth _ _ [] Hcol) as (j & Hj & <-).
      unfold shape1 in *. apply round_ok_length; [lia|apply Hr; exact Hj].
    + apply bind_ok_inv in H. destruct H as ([] & Ha & _).
      unfold assert in Ha.
      destruct (Nat.eqb_spec (length last_layer_weights)
                  (4 ^ length (active_wires (shape1 weights)) - 1)) as [E|E];
        [|discriminate Ha].
      rewrite E. destruct (shape1 weights) as [|[|[|L]]]; try reflexivity. lia.
  - intros (HL & Hcols & Hlast).
    assert (Hr : forall j, j < shape1 weights -> fst (round weights j) = Ok tt).
    { intros j Hj. apply round_ok; [lia|].
      rewrite Forall_forall in Hcols. apply Hcols. apply nth_In. exact Hj. }
    assert (E : length last_layer_weights
                = 4 ^ length (active_wires (shape1 weights)) - 1).
    { rewrite Hlast. destruct (shape1 weights) as [|[|[|L]]]; try reflexivity. lia. }
    rewrite (conv_net_rounds_ok _ _ _ Hr), bind_ok, (dense_layer_run _ _ E).
    cbn [fst]. rewrite (proj2 (Nat.eqb_eq _ _) E). reflexivity.
Qed.

(** X5.  Three or more layers can never be built on the 6 wires: after two
    rounds only 2 wires are active, so the third convolutional layer raises
    its assertion.  When the first two columns have 18 entries this is the
    error the call ends with, with the embedding and the 51 operations of the
    first two rounds already queued. *)
Theorem conv_net_too_many_layers (weights : tensor) (last_layer_weights features : list Q) :
  3 <= shape1 weights ->
  active_wires 2 = [0; 4]
  /\ fst (conv_net weights last_layer_weights features) <> Ok (Probs [0])
  /\ (length (nth 0 weights []) = 18 -> length (nth 1 weights []) = 18 ->
      fst (conv_net weights last_layer_weights features)
      = Raise (AssertionError too_small)
      /\ length (snd (conv_net weights last_layer_weights features)) = 52).
Proof.
  intros HL. split; [reflexivity|]. split.
  - intros H. apply conv_net_ok_layers in H. lia.
  - intros H0 H1. rewrite conv_net_eq. unfold conv_net_described, emit.
    rewrite bind_ok. cbn [fst snd].
    destruct (shape1 weights) as [|[|[|L]]]; try lia.
    cbn [seq for_each].
    pose proof (round_ok weights 0 ltac:(lia) H0) as R0.
    pose proof (round_ok weights 1 ltac:(lia) H1) as R1.
    assert (L0 : length (snd (round weights 0)) = 37).
    { unfold round. change (active_wires 0) with [0; 1; 2; 3; 4; 5].
      rewrite convolutional_layer_run; [|rewrite length_firstn; lia|cbn; lia].
      rewrite bind_ok. cbn [snd].
      rewrite pooling_layer_run; [|rewrite length_skipn; lia|cbn; lia].
      cbn [snd]. rewrite !length_app, !pair_block_length. reflexivity. }
    assert (L1 : length (snd (round weights 1)) = 14).
    { unfold round. change (active_wires 1) with [0; 2; 4].
      rewrite convolutional_layer_run; [|rewrite length_firstn; lia|cbn; lia].
      rewrite bind_ok. cbn [snd].
      rewrite pooling_layer_run; [|rewrite length_skipn; lia|cbn; lia].
      cbn [snd]. rewrite !length_app, !pair_block_length. reflexivity. }
    destruct (round weights 0) as [[[]|e0] ops0]; [|discriminate R0].
    destruct (round weights 1) as [[[]|e1] ops1]; [|discriminate R1].
    rewrite third_round_fails. cbn [fst snd] in *.
    rewrite !bind_ok. cbn [bind fst snd app].
    split; [reflexivity|].
    cbn [length]. rewrite !length_app, L0, L1. reflexivity.
Qed.

Lemma conv_net_too_many_layers_witness :
  fst (conv_net [repeat 0%Q 18; repeat 0%Q 18; repeat 0%Q 18] (repeat 0%Q 15) basis_features)
  = Raise (AssertionError too_small)
  /\ length (snd (conv_net [repeat 0%Q 18; repeat 0%Q 18; repeat 0%Q 18]
                    (repeat 0%Q 15) basis_features)) = 52.
Proof.
  apply (conv_net_too_many_layers [repeat 0%Q 18; repeat 0%Q 18; repeat 0%Q 18]
           (repeat 0%Q 15) basis_features).
  - cbn. lia.
  - reflexivity.
  - reflexivity.
Defined.

Lemma conv_net_builds_iff_witness :
  length basis_features <= 2 ^ num_wires
  /\ fst (conv_net zero_weights toy_weights_last basis_features) = Ok (Probs [0]).
Proof.
  assert (H : length basis_features <= 2 ^ num_wires) by (vm_compute; lia).
  split; [exact H|].
  apply (conv_net_builds_iff zero_weights toy_weights_last basis_features H).
  split; [cbn; lia|]. split; [|reflexivity].
  repeat constructor.
Defined.

Lemma round_tape (weights : tensor) (j : nat) :
  j < 2 -> length (nth j weights []) = 18 ->
  snd (round weights j)
  = (flat_map (pair_block true (firstn 15 (nth j weights []))) (even_pairs (active_wires j))
     ++ flat_map (pair_block false (firstn 15 (nth j weights []))) (odd_pairs (active_wires j)))
    ++ flat_map (pool_block (skipn 15 (nth j weights []))) (even_pairs (active_wires j)).
Proof.
  intros Hj Hlen. unfold round.
  assert (Hn : 3 <= length (active_wires j)) by (destruct j as [|[|j]]; cbn; lia).
  rewrite convolutional_layer_run by (rewrite ?length_firstn; lia).
  rewrite bind_ok. cbn [snd].
  rewrite pooling_layer_run by (rewrite ?length_skipn; lia).
  reflexivity.
Qed.

(** X6.  In every run of [conv_net] that builds, a wire that has been
    measured is never acted on again: the pooling layers measure the wires
    1, 3, 5 (first round) and 2 (second round), each once, the dense layer
    acts on unmeasured wires only, and the read-out wire 0 is never measured
    in mid-circuit. *)
Theorem conv_net_retires_measured_wires (weights : tensor)
    (last_layer_weights features : list Q) (m : MeasurementProcess) :
  fst (conv_net weights last_layer_weights features) = Ok m ->
  let ops := snd (conv_net weights last_layer_weights features) in
  untouched_after_measure ops = true
  /\ measured_wires ops = nth (shape1 weights) [[]; [1; 3; 5]; [1; 3; 5; 2]] []
  /\ ~ In 0 (measured_wires ops)
  /\ (forall w, In w (active_wires (shape1 weights)) -> ~ In w (measured_wires ops)).
Proof.
  intros H ops.
  pose proof (conv_net_ok_rounds _ _ _ _ H) as Hr.
  pose proof (conv_net_ok_layers _ _ _ _ H) as HL.
  assert (Hops : ops = AmplitudeEmbedding features (seq 0 num_wires) (1 # 2)
                   :: flat_map (fun j => snd (round weights j)) (seq 0 (shape1 weights))
                   ++ [ArbitraryUnitary last_layer_weights (active_wires (shape1 weights))]).
  { subst ops. rewrite (conv_net_rounds_ok _ _ _ Hr) in *.
    rewrite bind_ok in *. cbn [fst snd] in *.
    destruct (length last_layer_weights =? _) eqn:E; [|discriminate H].
    rewrite dense_layer_run by (apply Nat.eqb_eq; exact E). reflexivity. }
  assert (Hlen : forall j, j < shape1 weights -> length (nth j weights []) = 18).
  { intros j Hj. apply round_ok_length; [lia|auto]. }
  rewrite Hops. clear Hops ops.
  destruct (shape1 weights) as [|[|[|L]]]; [| | |lia].
  - cbn. intuition lia.
  - cbn [seq flat_map]. rewrite (round_tape weights 0) by (auto; lia).
    cbn. intuition lia.
  - cbn [seq flat_map].
    rewrite (round_tape weights 0), (round_tape weights 1) by (auto; lia).
    cbn. intuition lia.
Qed.

Lemma conv_net_retires_measured_wires_witness :
  untouched_after_measure (snd (conv_net zero_weights toy_weights_last basis_features)) = true
  /\ measured_wires (snd (conv_net zero_weights toy_weights_last basis_features))
     = [1; 3; 5; 2].
Proof.
  destruct (conv_net_retires_measured_wires zero_weights toy_weights_last basis_features
              (Probs [0]) eq_refl) as (H1 & H2 & _).
  split; [exact H1|exact H2].
Defined.

(** *** Further properties of the evaluation functions *)

Section Metrics.
Context {sim : Simulator}.

(** X7.  On valid weights [compute_out] returns one number per sample, in
    the order of the batch: entry i is the probability that the network
    assigns to label i on feature vector i. *)
Theorem compute_out_keeps_order weights wl features labels :
  circuit_builds weights wl -> length features = length labels ->
  exists out,
    compute_out weights wl features labels = Ok out
    /\ length out = length features
    /\ forall i x y,
         nth_error features i = Some x -> nth_error labels i = Some y ->
         nth_error out i = Some (assigned_probability weights wl (x, y)).
Proof.
  intros Hv Hlen. rewrite (compute_out_valid _ _ _ _ Hv Hlen).
  eexists. split; [reflexivity|]. split.
  - rewrite length_map, length_combine. lia.
  - intros i x y Hx Hy. rewrite nth_error_map.
    assert (E : nth_error (combine features labels) i = Some (x, y)).
    { clear Hlen. revert i labels Hx Hy.
      induction features as [|x' features IH]; intros [|i] [|y' labels] Hx Hy;
        try discriminate; cbn in *.
      - congruence.
      - now apply IH. }
    now rewrite E.
Qed.

(** X8.  A network that does not build makes every evaluation function fail
    with the very exception [conv_net] raises: on a non-empty batch
    [compute_out], [compute_accuracy] and [compute_cost] return no number. *)
Theorem evaluation_propagates_network_error weights wl features labels e :
  features <> [] -> length features = length labels ->
  fst (conv_net weights wl (hd [] features)) = Raise e ->
  compute_out weights wl features labels = Raise e
  /\ compute_accuracy weights wl features labels = Raise e
  /\ compute_cost weights wl features labels = Raise e.
Proof.
  intros Hne Hlen He.
  rewrite (conv_net_outcome_features weights wl _ []) in He.
  unfold compute_accuracy, compute_cost.
  rewrite (compute_out_invalid _ _ _ _ _ He Hlen Hne). repeat split.
Qed.

End Metrics.

Lemma compute_out_keeps_order_witness :
  exists out,
    @compute_out toy_simulator zero_weights toy_weights_last
      [[3 # 4]; [1 # 4]; [1 # 2]]%Q [0; 1; 0] = Ok out
    /\ length out = 3
    /\ nth_error out 1
       = Some (@assigned_probability toy_simulator zero_weights toy_weights_last
                 ([1 # 4]%Q, 1)).
Proof.
  destruct (@compute_out_keeps_order toy_simulator zero_weights toy_weights_last
              [[3 # 4]; [1 # 4]; [1 # 2]]%Q [0; 1; 0] zero_weights_build eq_refl)
    as (out & Hout & Hlen & Hnth).
  exists out. split; [exact Hout|]. split; [exact Hlen|].
  apply (Hnth 1); reflexivity.
Defined.

Lemma evaluation_propagates_network_error_witness :
  @compute_cost toy_simulator zero_weights [] [[3 # 4]; [1 # 4]]%Q [0; 1]
  = Raise (AssertionError (last_layer_msg 15 0)).
Proof.
  apply (@evaluation_propagates_network_error toy_simulator zero_weights []
           [[3 # 4]; [1 # 4]]%Q [0; 1]).
  - discriminate.
  - reflexivity.
  - reflexivity.
Defined.


(** *** The dataset loader *)

Lemma combine_seq_In {A} (l : list A) (k i : nat) (x : A) :
  In (i, x) (combine (seq k (length l)) l) <-> k <= i /\ nth_error l (i - k) = Some x.
Proof.
  revert k. induction l as [|y l IH]; intros k.
  - cbn. split; [intros []|]. intros [_ H]. destruct (i - k); discriminate.
  - cbn [length seq combine In]. rewrite IH. split.
    + intros [ [= <- <-] | [Hk H] ].
      * split; [lia|]. now rewrite Nat.sub_diag.
      * split; [lia|]. replace (i - k) with (S (i - S k)) by lia. exact H.
    + intros [Hk H]. destruct (Nat.eq_dec i k) as [->|Hne].
      * left. rewrite Nat.sub_diag in H. cbn in H. congruence.
      * right. split; [lia|]. replace (i - k) with (S (i - S k)) in H by lia. exact H.
Qed.

Lemma where_01_In (labels : list nat) (i : nat) :
  In i (Loader.where_01 labels)
  <-> exists l, nth_error labels i = Some l /\ (l = 0 \/ l = 1).
Proof.
  unfold Loader.where_01, enumerate. rewrite in_map_iff. split.
  - intros ([j l] & <- & H). apply filter_In in H. destruct H as [Hin Hl].
    apply combine_seq_In in Hin. destruct Hin as [_ Hn]. rewrite Nat.sub_0_r in Hn.
    exists l. split; [exact Hn|].
    apply orb_true_iff in Hl. destruct Hl as [E|E]; apply Nat.eqb_eq in E; auto.
  - intros (l & Hn & Hl). exists (i, l). split; [reflexivity|].
    apply filter_In. split.
    + apply combine_seq_In. rewrite Nat.sub_0_r. split; [lia|exact Hn].
    + apply orb_true_iff. destruct Hl as [-> | ->]; auto.
Qed.

Lemma map_fst_filter_NoDup {A B} (P : A * B -> bool) (l : list (A * B)) :
  NoDup (map fst l) -> NoDup (map fst (filter P l)).
Proof.
  induction l as [|x l IH]; intros H; [constructor|].
  cbn [map] in H. inversion H as [|? ? Hx Hl]; subst.
  cbn [filter]. destruct (P x); [|auto].
  cbn [map]. constructor; [|auto].
  intros Hin. apply Hx. apply in_map_iff in Hin. destruct Hin as (y & E & Hy).
  apply filter_In in Hy. apply in_map_iff. exists y. tauto.
Qed.

Lemma where_01_NoDup (labels : list nat) : NoDup (Loader.where_01 labels).
Proof.
  unfold Loader.where_01, enumerate. apply map_fst_filter_NoDup.
  assert (E : forall k, map fst (combine (seq k (length labels)) labels)
                        = seq k (length labels)).
  { induction labels as [|l labels IH]; intros k; [reflexivity|].
    cbn [length seq combine map fst]. now rewrite IH. }
  rewrite E. apply seq_NoDup.
Qed.

Lemma take_Forall2 {A} (a : list A) (idx : list nat) (xs : list A) :
  Loader.take a idx = Ok xs -> Forall2 (fun i x => nth_error a i = Some x) idx xs.
Proof.
  revert xs. induction idx as [|i idx IH]; intros xs H.
  - cbn in H. injection H as <-. constructor.
  - cbn [Loader.take] in H. destruct (nth_error a i) as [x|] eqn:E; [|discriminate].
    destruct (Loader.take a idx) as [ys|e]; [|discriminate].
    cbn in H. injection H as <-. constructor; auto.
Qed.

Lemma take_total {A} (a : list A) (idx : list nat) :
  (forall i, In i idx -> i < length a) -> exists xs, Loader.take a idx = Ok xs.
Proof.
  induction idx as [|i idx IH]; intros H; [exists []; reflexivity|].
  destruct IH as [xs Hxs]; [intros j Hj; apply H; right; exact Hj|].
  assert (Hi : i < length a) by (apply H; left; reflexivity).
  cbn [Loader.take].
  destruct (nth_error a i) as [x|] eqn:E.
  - rewrite Hxs. eexists. reflexivity.
  - apply nth_error_None in E. lia.
Qed.

Lemma setdiff1d_In (a b : list nat) (k : nat) :
  In k (Loader.setdiff1d a b) <-> In k a /\ ~ In k b.
Proof.
  unfold Loader.setdiff1d. rewrite filter_In, negb_true_iff.
  split; intros [Ha Hb]; split; try exact Ha.
  - intros Hin. assert (existsb (Nat.eqb k) b = true); [|congruence].
    apply existsb_exists. exists k. split; [exact Hin|apply Nat.eqb_refl].
  - destruct (existsb (Nat.eqb k) b) eqn:E; [|reflexivity].
    apply existsb_exists in E. destruct E as (j & Hj & E). apply Nat.eqb_eq in E.
    subst j. contradiction.
Qed.

Lemma Forall2_nth_error_r {A B} (R : A -> B -> Prop) (l : list A) (l' : list B)
    (k : nat) (y : B) :
  Forall2 R l l' -> nth_error l' k = Some y ->
  exists x, nth_error l k = Some x /\ R x y.
Proof.
  intros H. revert k. induction H as [|x y' l l' Hxy _ IH]; intros [|k] Hk;
    try discriminate.
  - cbn in Hk. injection Hk as ->. exists x. split; [reflexivity|exact Hxy].
  - exact (IH k Hk).
Qed.

Lemma take_through {A B} (g : A -> B) (a : list A) (W : list nat) (F : list A)
    (idx : list nat) (xs : list B) :
  Forall2 (fun i x => nth_error a i = Some x) W F ->
  Loader.take (map g F) idx = Ok xs ->
  Forall2 (fun k x => exists i r, nth_error W k = Some i /\ nth_error a i = Some r /\ x = g r)
          idx xs.
Proof.
  intros HF H. apply take_Forall2 in H.
  eapply Forall2_impl; [|exact H]. intros k x Hk. cbv beta in Hk.
  rewrite nth_error_map in Hk.
  destruct (nth_error F k) as [r|] eqn:E; [|discriminate].
  cbn in Hk. injection Hk as <-.
  destruct (Forall2_nth_error_r _ _ _ _ _ HF E) as (i & Hi & Hr).
  exists i, r. auto.
Qed.

Section Loading.
Context {libs : DigitsLibraries}.
Hypothesis contract : choice_contract.

Lemma loader_run num_train num_test rng data target tr te g1 g2 :
  load_digits = (data, target) -> length data = length target ->
  choice rng (seq 0 (length (Loader.where_01 target))) num_train = (Ok tr, g1) ->
  choice g1 (Loader.setdiff1d (seq 0 (length (Loader.where_01 target))) tr) num_test
  = (Ok te, g2) ->
  exists x_train y_train x_test y_test,
    Loader.load_digits_data num_train num_test rng
    = (Ok (x_train, y_train, x_test, y_test), g2)
    /\ Forall2 (feature_from data (Loader.where_01 target)) tr x_train
    /\ Forall2 (label_from target (Loader.where_01 target)) tr y_train
    /\ Forall2 (feature_from data (Loader.where_01 target)) te x_test
    /\ Forall2 (label_from target (Loader.where_01 target)) te y_test
    /\ length tr = num_train /\ length te = num_test
    /\ NoDup (tr ++ te)
    /\ (forall k, In k (tr ++ te) -> k < length (Loader.where_01 target)).
Proof.
  intros Hload Hlen Htr Hte.
  set (W := Loader.where_01 target) in *.
  assert (HW : forall i, In i W -> i < length target).
  { intros i Hi. apply where_01_In in Hi. destruct Hi as (l & Hl & _).
    apply nth_error_Some. congruence. }
  destruct (take_total data W) as [F HF]; [intros i Hi; rewrite Hlen; auto|].
  destruct (take_total target W) as [L HL]; [auto|].
  pose proof (take_Forall2 _ _ _ HF) as HF2.
  pose proof (take_Forall2 _ _ _ HL) as HL2.
  pose proof (Forall2_length HF2) as LF. pose proof (Forall2_length HL2) as LL.
  destruct (contract _ _ _ _ _ Htr) as (Ltr & Itr & Ntr).
  destruct (contract _ _ _ _ _ Hte) as (Lte & Ite & Nte).
  specialize (Ntr (seq_NoDup _ _)).
  specialize (Nte (NoDup_filter _ (seq_NoDup _ _))).
  assert (Btr : forall k, In k tr -> k < length W).
  { intros k Hk. apply Itr in Hk. apply in_seq in Hk. lia. }
  assert (Bte : forall k, In k te -> k < length W /\ ~ In k tr).
  { intros k Hk. apply Ite in Hk. apply setdiff1d_In in Hk. destruct Hk as [Hk Hn].
    apply in_seq in Hk. split; [lia|exact Hn]. }
  destruct (take_total (Loader.normalize F) tr) as [x_train Hx];
    [intros k Hk; unfold Loader.normalize; rewrite length_map, <- LF; auto|].
  destruct (take_total L tr) as [y_train Hy]; [intros k Hk; rewrite <- LL; auto|].
  destruct (take_total (Loader.normalize F) te) as [x_test Hx'];
    [intros k Hk; unfold Loader.normalize; rewrite length_map, <- LF; apply Bte; exact Hk|].
  destruct (take_total L te) as [y_test Hy'];
    [intros k Hk; rewrite <- LL; apply Bte; exact Hk|].
  exists x_train, y_train, x_test, y_test.
  split.
  { unfold Loader.load_digits_data. rewrite Hload. fold W. rewrite HF, HL, <- LL.
    rewrite Htr, Hte, Hx, Hy, Hx', Hy'. reflexivity. }
  split; [exact (take_through _ _ _ _ _ _ HF2 Hx)|].
  split.
  { rewrite <- (map_id L) in Hy. pose proof (take_through _ _ _ _ _ _ HL2 Hy) as H.
    eapply Forall2_impl; [|exact H]. intros k y (i & r & H1 & H2 & H3).
    exists i, r. auto. }
  split; [exact (take_through _ _ _ _ _ _ HF2 Hx')|].
  split.
  { rewrite <- (map_id L) in Hy'. pose proof (take_through _ _ _ _ _ _ HL2 Hy') as H.
    eapply Forall2_impl; [|exact H]. intros k y (i & r & H1 & H2 & H3).
    exists i, r. auto. }
  split; [exact Ltr|]. split; [exact Lte|]. split.
  - apply NoDup_app; [exact Ntr|exact Nte|].
    intros k Hk Hk'. exact (proj2 (Bte k Hk') Hk).
  - intros k Hk. apply in_app_or in Hk. destruct Hk as [Hk|Hk]; [auto|apply Bte; exact Hk].
Qed.
End Loading.

Lemma Forall2_map_l {A B C} (R : B -> C -> Prop) (f : A -> B) (l : list A) (l' : list C) :
  Forall2 (fun a c => R (f a) c) l l' -> Forall2 R (map f l) l'.
Proof. induction 1; constructor; auto. Qed.

Section LoaderProperties.
Context {libs : DigitsLibraries}.
Hypothesis contract : choice_contract.

(** X10.  When the dataset has one target per row and both draws succeed,
    [load_digits_data] returns [num_train] training samples and [num_test]
    test samples, with as many labels as samples, and every label it returns
    is 0 or 1; the generator has advanced through the two draws. *)
Theorem load_digits_data_shapes_and_labels num_train num_test rng data target
    tr te g1 g2 :
  load_digits = (data, target) -> length data = length target ->
  choice rng (seq 0 (length (Loader.where_01 target))) num_train = (Ok tr, g1) ->
  choice g1 (Loader.setdiff1d (seq 0 (length (Loader.where_01 target))) tr) num_test
  = (Ok te, g2) ->
  exists x_train y_train x_test y_test,
    Loader.load_digits_data num_train num_test rng
    = (Ok (x_train, y_train, x_test, y_test), g2)
    /\ length x_train = num_train /\ length y_train = num_train
    /\ length x_test = num_test /\ length y_test = num_test
    /\ Forall (fun y => y = 0 \/ y = 1) y_train
    /\ Forall (fun y => y = 0 \/ y = 1) y_test.
Proof.
  intros Hload Hlen Htr Hte.
  destruct (loader_run contract _ _ _ _ _ _ _ _ _ Hload Hlen Htr Hte)
    as (x_train & y_train & x_test & y_test & Hrun & Hx & Hy & Hx' & Hy' & Ltr & Lte & _).
  assert (Hbin : forall idx ys,
            Forall2 (label_from target (Loader.where_01 target)) idx ys ->
            Forall (fun y => y = 0 \/ y = 1) ys).
  { intros idx ys H. induction H as [|k y idx ys (i & l & Hi & Hl & ->) _ IH];
      constructor; [|exact IH].
    apply nth_error_In in Hi. apply where_01_In in Hi.
    destruct Hi as (l' & Hl' & Hb). congruence. }
  exists x_train, y_train, x_test, y_test.
  split; [exact Hrun|].
  rewrite <- (Forall2_length Hx), <- (Forall2_length Hy),
    <- (Forall2_length Hx'), <- (Forall2_length Hy').
  repeat split; eauto.
Qed.

(** X11.  The samples [load_digits_data] returns are rows of the dataset
    used at most once: there are pairwise distinct row positions, those of
    the training samples and those of the test samples, such that every
    returned feature vector is the normalised row at its position and every
    returned label is the target at the same position.  In particular no
    test sample is drawn from a row used for training. *)
Theorem load_digits_data_distinct_rows num_train num_test rng data target
    tr te g1 g2 :
  load_digits = (data, target) -> length data = length target ->
  choice rng (seq 0 (length (Loader.where_01 target))) num_train = (Ok tr, g1) ->
  choice g1 (Loader.setdiff1d (seq 0 (length (Loader.where_01 target))) tr) num_test
  = (Ok te, g2) ->
  exists x_train y_train x_test y_test rows_train rows_test,
    Loader.load_digits_data num_train num_test rng
    = (Ok (x_train, y_train, x_test, y_test), g2)
    /\ NoDup (rows_train ++ rows_test)
    /\ Forall2 (fun i x => exists row, nth_error data i = Some row /\ x = normalize_row row)
               rows_train x_train
    /\ Forall2 (fun i y => nth_error target i = Some y) rows_train y_train
    /\ Forall2 (fun i x => exists row, nth_error data i = Some row /\ x = normalize_row row)
               rows_test x_test
    /\ Forall2 (fun i y => nth_error target i = Some y) rows_test y_test.
Proof.
  intros Hload Hlen Htr Hte.
  destruct (loader_run contract _ _ _ _ _ _ _ _ _ Hload Hlen Htr Hte)
    as (x_train & y_train & x_test & y_test & Hrun & Hx & Hy & Hx' & Hy' & _ & _ & Hnd & Hb).
  set (W := Loader.where_01 target) in *.
  set (row_of := fun k => nth k W 0).
  assert (Hfx : forall idx xs, Forall2 (feature_from data W) idx xs ->
            Forall2 (fun i x => exists row, nth_error data i = Some row
                                            /\ x = normalize_row row) (map row_of idx) xs).
  { intros idx xs H. apply Forall2_map_l. eapply Forall2_impl; [|exact H].
    intros k x (i & row & Hi & Hrow & ->). unfold row_of.
    rewrite (nth_error_nth _ _ 0 Hi). eauto. }
  assert (Hfy : forall idx ys, Forall2 (label_from target W) idx ys ->
            Forall2 (fun i y => nth_error target i = Some y) (map row_of idx) ys).
  { intros idx ys H. apply Forall2_map_l. eapply Forall2_impl; [|exact H].
    intros k y (i & l & Hi & Hl & ->). unfold row_of.
    now rewrite (nth_error_nth _ _ 0 Hi). }
  exists x_train, y_train, x_test, y_test, (map row_of tr), (map row_of te).
  split; [exact Hrun|]. split; [|auto].
  rewrite <- map_app. apply NoDup_map_NoDup_ForallPairs; [|exact Hnd].
  intros a b Ha Hb' E. unfold row_of in E.
  exact (proj1 (NoDup_nth W 0) (where_01_NoDup target) a b (Hb a Ha) (Hb b Hb') E).
Qed.
End LoaderProperties.

Lemma firstn_In_list {A} (n : nat) (l : list A) (x : A) : In x (firstn n l) -> In x l.
Proof.
  revert n. induction l as [|y l IH]; intros [|n] H; cbn in H; try contradiction.
  destruct H as [H|H]; [left; exact H|right; exact (IH n H)].
Qed.

Lemma firstn_NoDup {A} (n : nat) (l : list A) : NoDup l -> NoDup (firstn n l).
Proof.
  intros H. revert n. induction H as [|x l Hx _ IH]; intros [|n]; try constructor.
  - intros Hin. apply Hx. exact (firstn_In_list _ _ _ Hin).
  - apply IH.
Qed.

Lemma toy_choice_contract : @choice_contract toy_libraries.
Proof.
  intros g population size idx g' H. cbn [choice toy_libraries] in H.
  destruct (Nat.leb_spec size (length population)) as [Hle|Hgt]; [|discriminate].
  injection H as <- <-. split; [|split].
  - rewrite length_firstn. lia.
  - intros x Hx. exact (firstn_In_list _ _ _ Hx).
  - apply firstn_NoDup.
Qed.

Lemma load_digits_data_shapes_and_labels_witness :
  exists x_train y_train x_test y_test,
    @Loader.load_digits_data toy_libraries 2 1 0
    = (Ok (x_train, y_train, x_test, y_test), 2)
    /\ length x_train = 2 /\ length y_train = 2
    /\ length x_test = 1 /\ length y_test = 1
    /\ Forall (fun y => y = 0 \/ y = 1) y_train
    /\ Forall (fun y => y = 0 \/ y = 1) y_test.
Proof.
  exact (@load_digits_data_shapes_and_labels toy_libraries toy_choice_contract 2 1 0
           _ _ _ _ _ _ eq_refl eq_refl eq_refl eq_refl).
Defined.

Lemma load_digits_data_distinct_rows_witness :
  exists x_train y_train x_test y_test rows_train rows_test,
    @Loader.load_digits_data toy_libraries 2 1 0
    = (Ok (x_train, y_train, x_test, y_test), 2)
    /\ NoDup (rows_train ++ rows_test)
    /\ Forall2 (fun i x => exists row, nth_error (fst (@load_digits toy_libraries)) i = Some row
                                       /\ x = @normalize_row toy_libraries row)
               rows_train x_train
    /\ Forall2 (fun i y => nth_error (snd (@load_digits toy_libraries)) i = Some y)
               rows_train y_train
    /\ Forall2 (fun i x => exists row, nth_error (fst (@load_digits toy_libraries)) i = Some row
                                       /\ x = @normalize_row toy_libraries row)
               rows_test x_test
    /\ Forall2 (fun i y => nth_error (snd (@load_digits toy_libraries)) i = Some y)
               rows_test y_test.
Proof.
  exact (@load_digits_data_distinct_rows toy_libraries toy_choice_contract 2 1 0
           _ _ _ _ _ _ eq_refl eq_refl eq_refl eq_refl).
Defined.

(** *** Composition of the two layers, and the initial weights *)

Lemma measured_wires_app (l l' : list Operation) :
  measured_wires (l ++ l') = measured_wires l ++ measured_wires l'.
Proof.
  induction l as [|op l IH]; [reflexivity|].
  destruct op; cbn [app measured_wires]; rewrite ?IH; reflexivity.
Qed.

Lemma measured_pair_blocks (pre : bool) (ws : list Q) (prs : list (wire * wire)) :
  measured_wires (flat_map (pair_block pre ws) prs) = [].
Proof.
  induction prs as [|pr prs IH]; [reflexivity|].
  cbn [flat_map]. rewrite measured_wires_app, IH. now destruct pre.
Qed.

Lemma pool_block_length (ws : list Q) (prs : list (wire * wire)) :
  length (flat_map (pool_block ws) prs) = 2 * length prs.
Proof.
  induction prs as [|pr prs IH]; [reflexivity|].
  cbn [flat_map length app pool_block]. rewrite IH. lia.
Qed.

(** X12.  [conv_and_pooling] needs 3 wires, although pooling alone accepts
    2: on a shorter list it raises the assertion of the convolutional layer
    with nothing queued.  On n >= 3 wires with a kernel of 18 weights it
    succeeds, queues the operations of the convolutional layer followed by
    those of the pooling layer, 5(n-1) + 4(n/2) in all, and measures exactly
    the wires at the odd positions. *)
Theorem conv_and_pooling_composes (kernel_weights : list Q) (wires : list wire) :
  (length wires < 3 ->
     conv_and_pooling kernel_weights wires = (Raise (AssertionError too_small), []))
  /\ (3 <= length wires -> length kernel_weights = 18 ->
      fst (conv_and_pooling kernel_weights wires) = Ok tt
      /\ snd (conv_and_pooling kernel_weights wires)
         = snd (convolutional_layer (firstn 15 kernel_weights) wires true)
           ++ snd (pooling_layer (skipn 15 kernel_weights) wires)
      /\ measured_wires (snd (conv_and_pooling kernel_weights wires)) = odd_indexed wires
      /\ length (snd (conv_and_pooling kernel_weights wires))
         = 5 * (length wires - 1) + 4 * (length wires / 2)).
Proof.
  unfold conv_and_pooling, slice, slice_from. rewrite Nat.sub_0_r. cbn [skipn].
  split.
  - intros Hn. rewrite convolutional_layer_small by exact Hn. reflexivity.
  - intros Hn Hk.
    assert (Hc : length (firstn 15 kernel_weights) = 15) by (rewrite length_firstn; lia).
    assert (Hp : length (skipn 15 kernel_weights) = 3) by (rewrite length_skipn; lia).
    rewrite (convolutional_layer_run _ _ _ Hc Hn).
    rewrite (pooling_layer_run _ _ Hp) by lia.
    rewrite bind_ok. cbn [fst snd].
    split; [reflexivity|]. split; [reflexivity|]. split.
    + rewrite !measured_wires_app, !measured_pair_blocks, measured_pool_blocks.
      reflexivity.
    + rewrite !length_app, !pair_block_length, pool_block_length,
        even_pairs_length, odd_pairs_length.
      assert (H : length wires / 2 + (length wires - 1) / 2 = length wires - 1).
      { rewrite <- even_pairs_length, <- odd_pairs_length, <- length_app.
        rewrite (Permutation_length (adjacent_pairs_split wires)).
        unfold adjacent_pairs. rewrite length_combine.
        destruct wires; cbn [tl length]; lia. }
      lia.
Qed.

Lemma conv_and_pooling_composes_witness :
  conv_and_pooling (repeat 0%Q 18) [0; 4] = (Raise (AssertionError too_small), [])
  /\ fst (pooling_layer (repeat 0%Q 3) [0; 4]) = Ok tt
  /\ measured_wires (snd (conv_and_pooling (repeat 0%Q 18) [0; 2; 4])) = [2]
  /\ length (snd (conv_and_pooling (repeat 0%Q 18) [0; 2; 4])) = 14.
Proof.
  split; [|split; [reflexivity|]].
  - apply (conv_and_pooling_composes (repeat 0%Q 18) [0; 4]). cbn. lia.
  - destruct (proj2 (conv_and_pooling_composes (repeat 0%Q 18) [0; 2; 4]))
      as (_ & _ & Hm & Hl); [cbn; lia|reflexivity|].
    split; [exact Hm|exact Hl].
Defined.

(** X13.  The initial weights fit the network, whatever the random draws:
    [init_weights] returns two columns of 18 entries and 15 = 4^2 - 1
    final-layer entries, and on them [conv_net] builds for every feature
    vector that fits the register, of at most 2^6 = 64 entries, ending with
    the dense layer on the wires 0 and 4. *)
Theorem init_weights_fit_the_network {smp : Sampler} (features : list Q) :
  length features <= 2 ^ num_wires ->
  map (@length Q) (fst init_weights) = [18; 18]
  /\ length (snd init_weights) = 15
  /\ fst (conv_net (fst init_weights) (snd init_weights) features) = Ok (Probs [0])
  /\ last (snd (conv_net (fst init_weights) (snd init_weights) features)) (MidMeasure 0)
     = ArbitraryUnitary (snd init_weights) [0; 4].
Proof.
  intros _. split; [reflexivity|]. split; [reflexivity|].
  split; vm_compute; reflexivity.
Qed.

Lemma init_weights_fit_the_network_witness :
  length basis_features <= 2 ^ num_wires
  /\ fst (conv_net (fst (@init_weights toy_sampler)) (snd (@init_weights toy_sampler))
            basis_features) = Ok (Probs [0])
  /\ last (snd (conv_net (fst (@init_weights toy_sampler)) (snd (@init_weights toy_sampler))
                   basis_features)) (MidMeasure 0)
     = ArbitraryUnitary (repeat 0%Q 15) [0; 4].
Proof.
  assert (H : length basis_features <= 2 ^ num_wires) by (vm_compute; lia).
  split; [exact H|].
  destruct (@init_weights_fit_the_network toy_sampler basis_features H)
    as (_ & _ & Hb & Hd).
  split; [exact Hb|exact Hd].
Defined.

Lemma even_pairs_miss_last (l : list wire) (pr : wire * wire) :
  Nat.odd (length l) = true -> NoDup l -> In pr (even_pairs l) ->
  fst pr <> last l 0 /\ snd pr <> last l 0.
Proof.
  induction l as [|x|x y l IH] using pair_induction; intros Hodd Hnd Hin.
  - destruct Hin.
  - destruct Hin.
  - inversion Hnd as [|? ? Hx Hnd']; subst. inversion Hnd' as [|? ? Hy Hnd'']; subst.
    assert (Hodd' : Nat.odd (length l) = true) by exact Hodd.
    destruct l as [|z l]; [discriminate Hodd'|].
    assert (Hlast : In (last (x :: y :: z :: l) 0) (z :: l)).
    { change (last (x :: y :: z :: l) 0) with (last (z :: l) 0).
      destruct (@exists_last _ (z :: l)) as (l' & a & E); [discriminate|].
      rewrite E, last_last. apply in_or_app. right. left. reflexivity. }
    cbn [even_pairs] in Hin. destruct Hin as [<-|Hin].
    + cbn [fst snd]. split; intros E; rewrite <- E in Hlast.
      * apply Hx. right. exact Hlast.
      * apply Hy. exact Hlast.
    + change (last (x :: y :: z :: l) 0) with (last (z :: l) 0).
      exact (IH Hodd' Hnd'' Hin).
Qed.

(** X14.  On a list of distinct wires of odd length n >= 3, [pooling_layer]
    leaves the last wire alone: it is not paired, so it is neither measured
    nor rotated, and it stays active for the next round. *)
Theorem pooling_layer_skips_unpaired_wire (weights : list Q) (wires : list wire) :
  length weights = 3 -> 2 <= length wires ->
  Nat.odd (length wires) = true -> NoDup wires ->
  (forall op, In op (snd (pooling_layer weights wires)) ->
     ~ In (last wires 0) (op_wires op))
  /\ last (stride2 wires) 0 = last wires 0.
Proof.
  intros Hw Hn Hodd Hnd. split.
  - rewrite (pooling_layer_run _ _ Hw Hn). cbn [snd].
    intros op Hop Hlast. apply in_flat_map in Hop. destruct Hop as (pr & Hpr & Hop).
    destruct (even_pairs_miss_last wires pr Hodd Hnd Hpr) as [H1 H2].
    destruct Hop as [<-|[<-|[]]]; cbn [op_wires] in Hlast;
      destruct Hlast as [E|[]]; congruence.
  - clear Hw Hn Hnd. induction wires as [|x|x y l IH] using pair_induction.
    + reflexivity.
    + reflexivity.
    + assert (Hodd' : Nat.odd (length l) = true) by exact Hodd.
      destruct l as [|z l]; [discriminate Hodd'|].
      change (last (x :: y :: z :: l) 0) with (last (z :: l) 0).
      rewrite <- (IH Hodd'). cbn [stride2].
      destruct l as [|u l]; reflexivity.
Qed.

Lemma pooling_layer_skips_unpaired_wire_witness :
  (forall op, In op (snd (pooling_layer [1; 2; 3]%Q [0; 2; 4])) -> ~ In 4 (op_wires op))
  /\ last (stride2 [0; 2; 4]) 0 = 4.
Proof.
  apply (pooling_layer_skips_unpaired_wire [1; 2; 3]%Q [0; 2; 4]).
  - reflexivity.
  - cbn; lia.
  - reflexivity.
  - repeat constructor; cbn; intuition lia.
Defined.
